(** * simply::Thread (concurrency.hpp): lifecycle of the thread handle

    A shallow embedding of the single-header library: the [Thread] object
    (one field, [_handle]), its identity type [Thread::id], the start-up
    protocol [_start], the wait wrapper [_join], [_detach], and the public
    methods built from them.

    The Win32 calls the header makes are modelled as operations on an
    explicit [World]: the table of open handles, the kernel thread objects,
    [GetLastError]/[errno], the chronological list of calls issued, and an
    environment that answers what the program cannot decide (does thread
    creation succeed, does the awaited thread finish in time, ...).  C++
    exceptions and a wait that never returns are outcomes of the monad. *)

From Stdlib Require Import ZArith String List Bool Lia.
From stdpp Require Import base option functions gmap.
Import ListNotations.

Local Open Scope Z_scope.

(** ** Machine types *)

(** [HANDLE] is a pointer-sized value, [nullptr] is 0; [DWORD] is an
    unsigned 32-bit integer. *)
Abbreviation HANDLE := Z (only parsing).
Abbreviation DWORD := Z (only parsing).
Abbreviation addr := nat (only parsing).

Definition nullptr : HANDLE := 0.

(** Conversion of a [size_t] argument to the [DWORD] parameter of a Win32
    call. *)
Definition to_DWORD (x : Z) : DWORD := x mod 2 ^ 32.

(** ** Constants of the Windows SDK and of <cerrno> *)

Module Win32const.
Definition CREATE_SUSPENDED : DWORD := 4.
Definition INFINITE : DWORD := 4294967295.
Definition WAIT_OBJECT_0 : DWORD := 0.
Definition WAIT_TIMEOUT : DWORD := 258.
Definition WAIT_FAILED : DWORD := 4294967295.
Definition ERROR_INVALID_HANDLE : DWORD := 6.
Definition THREAD_PRIORITY_LOWEST : Z := -2.
Definition THREAD_PRIORITY_BELOW_NORMAL : Z := -1.
Definition THREAD_PRIORITY_NORMAL : Z := 0.
Definition THREAD_PRIORITY_ABOVE_NORMAL : Z := 1.
Definition THREAD_PRIORITY_HIGHEST : Z := 2.
Definition THREAD_PRIORITY_TIME_CRITICAL : Z := 15.
(** [std::errc::invalid_argument] *)
Definition EINVAL : Z := 22.
End Win32const.
Import Win32const.

(** ** std::system_error *)

Inductive error_category := generic_category | system_category.

Record system_error := mk_system_error {
  code : Z;
  category : error_category;
  what : string
}.

(** [std::system_error(std::make_error_code(std::errc::invalid_argument), msg)] *)
Definition invalid_argument (msg : string) : system_error :=
  mk_system_error EINVAL generic_category msg.

(** [std::system_error(e, std::system_category())] *)
Definition os_error (e : Z) : system_error :=
  mk_system_error e system_category "".

Definition is_invalid_operation (e : system_error) : bool :=
  match category e with
  | generic_category => code e =? EINVAL
  | system_category => false
  end.

Definition is_os_error (e : system_error) : bool :=
  match category e with
  | system_category => true
  | generic_category => false
  end.

(** ** The world the header runs in *)

(** The calls that change the system or may block, in the order issued. *)
Inductive Syscall :=
| Call_beginthreadex (initflag : DWORD)
| Call_SetThreadPriority (h : HANDLE) (nPriority : Z)
| Call_ResumeThread (h : HANDLE)
| Call_TerminateThread (h : HANDLE) (dwExitCode : DWORD)
| Call_CloseHandle (h : HANDLE)
| Call_WaitForSingleObject (h : HANDLE) (dwMilliseconds : DWORD).

(** A kernel thread object. *)
Record KThread := mk_KThread {
  k_priority : Z;
  k_suspended : bool;
  k_exited : bool
}.

(** What the awaited thread does while the caller waits on it. *)
Inductive WaitAnswer :=
| Signals                 (* the thread terminates within the bound *)
| StillRunning            (* it does not *)
| WaitFails (err : DWORD) (* the wait itself fails *).

(** The environment: the answer to the call issued at logical time [n]
    (the number of calls issued before it). *)
Record Env := mk_Env {
  env_spawn : nat -> option (positive * DWORD);
      (* a new handle and thread id, or no thread *)
  env_errno : nat -> Z;
      (* errno left by a failed _beginthreadex *)
  env_setprio : nat -> option DWORD;
      (* None: priority accepted; Some e: rejected with last error e *)
  env_resume : nat -> option DWORD;
      (* None: resumed; Some e: fails with last error e *)
  env_wait : nat -> WaitAnswer
}.

Record World := mk_World {
  objs : addr -> HANDLE;        (* the [_handle] field of the Thread at each address *)
  cur : DWORD;                  (* id of the calling thread *)
  handles : gmap Z Z;           (* open handles, each with the id of its thread *)
  threads : gmap Z KThread;     (* kernel thread objects by thread id *)
  last_error : DWORD;
  errno : Z;
  trace : list Syscall;
  env : Env
}.

Definition now (w : World) : nat := length (trace w).

Definition set_objs (f : addr -> HANDLE) (w : World) : World :=
  mk_World f (cur w) (handles w) (threads w) (last_error w) (errno w) (trace w) (env w).
Definition set_handles (m : gmap Z Z) (w : World) : World :=
  mk_World (objs w) (cur w) m (threads w) (last_error w) (errno w) (trace w) (env w).
Definition set_threads (m : gmap Z KThread) (w : World) : World :=
  mk_World (objs w) (cur w) (handles w) m (last_error w) (errno w) (trace w) (env w).
Definition set_last_error (e : DWORD) (w : World) : World :=
  mk_World (objs w) (cur w) (handles w) (threads w) e (errno w) (trace w) (env w).
Definition set_errno (e : Z) (w : World) : World :=
  mk_World (objs w) (cur w) (handles w) (threads w) (last_error w) e (trace w) (env w).
Definition log (c : Syscall) (w : World) : World :=
  mk_World (objs w) (cur w) (handles w) (threads w) (last_error w) (errno w)
           (trace w ++ [c]) (env w).

(** ** Outcomes and the monad of the embedded code *)

Inductive Outcome (A : Type) :=
| Returned (a : A)
| Thrown (e : system_error)
| Hangs.
Arguments Returned {A} a.
Arguments Thrown {A} e.
Arguments Hangs {A}.

Definition M (A : Type) : Type := World -> Outcome A * World.

Definition ret {A} (a : A) : M A := fun w => (Returned a, w).
Definition throw {A} (e : system_error) : M A := fun w => (Thrown e, w).
Definition bind {A B} (m : M A) (k : A -> M B) : M B := fun w =>
  match m w with
  | (Returned a, w') => k a w'
  | (Thrown e, w') => (Thrown e, w')
  | (Hangs, w') => (Hangs, w')
  end.
Definition gets {A} (f : World -> A) : M A := fun w => (Returned (f w), w).
Definition modify (f : World -> World) : M unit := fun w => (Returned tt, f w).

Notation "'do' x <- c1 ; c2" := (bind c1 (fun x => c2))
  (at level 10, x name, c1 at level 100, c2 at level 200).
Notation "'run' c1 ; c2" := (bind c1 (fun _ => c2))
  (at level 10, c1 at level 100, c2 at level 200).

(** Reading and writing the [_handle] field of the Thread at [this]. *)
Definition load (this : addr) : M HANDLE := gets (fun w => objs w this).
Definition store (this : addr) (h : HANDLE) : M unit :=
  modify (fun w => set_objs (<[this := h]> (objs w)) w).

(** ** The Win32 calls *)

Module Win32.

Definition GetCurrentThreadId (w : World) : DWORD := cur w.

(** The id of the thread behind a handle; 0 for a handle that is not open. *)
Definition GetThreadId (w : World) (h : HANDLE) : DWORD :=
  default 0 (handles w !! h).

Definition GetLastError : M DWORD := gets last_error.

Definition _beginthreadex (initflag : DWORD) : M Z := fun w =>
  let w1 := log (Call_beginthreadex initflag) w in
  match env_spawn (env w) (now w) with
  | None => (Returned 0, set_errno (env_errno (env w) (now w)) w1)
  | Some (h, t) =>
      let k := mk_KThread THREAD_PRIORITY_NORMAL
                          (initflag =? CREATE_SUSPENDED) false in
      (Returned (Z.pos h),
       set_threads (<[t := k]> (threads w1))
         (set_handles (<[Z.pos h := t]> (handles w1)) w1))
  end.

(** Nonzero on success. *)
Definition SetThreadPriority (h : HANDLE) (nPriority : Z) : M Z := fun w =>
  let w1 := log (Call_SetThreadPriority h nPriority) w in
  match handles w !! h with
  | None => (Returned 0, set_last_error ERROR_INVALID_HANDLE w1)
  | Some t =>
      match env_setprio (env w) (now w) with
      | Some e => (Returned 0, set_last_error e w1)
      | None =>
          (Returned 1,
           set_threads
             (alter (fun k => mk_KThread nPriority (k_suspended k) (k_exited k))
                    t (threads w1)) w1)
      end
  end.

(** The previous suspend count, or (DWORD)-1 on failure. *)
Definition ResumeThread (h : HANDLE) : M DWORD := fun w =>
  let w1 := log (Call_ResumeThread h) w in
  match handles w !! h with
  | None => (Returned 4294967295, set_last_error ERROR_INVALID_HANDLE w1)
  | Some t =>
      match env_resume (env w) (now w) with
      | Some e => (Returned 4294967295, set_last_error e w1)
      | None =>
          let was := match threads w !! t with
                     | Some k => if k_suspended k then 1 else 0
                     | None => 0
                     end in
          (Returned was,
           set_threads
             (alter (fun k => mk_KThread (k_priority k) false (k_exited k))
                    t (threads w1)) w1)
      end
  end.

Definition TerminateThread (h : HANDLE) (dwExitCode : DWORD) : M Z := fun w =>
  let w1 := log (Call_TerminateThread h dwExitCode) w in
  match handles w !! h with
  | None => (Returned 0, set_last_error ERROR_INVALID_HANDLE w1)
  | Some t =>
      (Returned 1,
       set_threads
         (alter (fun k => mk_KThread (k_priority k) (k_suspended k) true)
                t (threads w1)) w1)
  end.

(** Nonzero on success; the handle is no longer open afterwards. *)
Definition CloseHandle (h : HANDLE) : M Z := fun w =>
  let w1 := log (Call_CloseHandle h) w in
  match handles w !! h with
  | None => (Returned 0, set_last_error ERROR_INVALID_HANDLE w1)
  | Some _ => (Returned 1, set_handles (delete h (handles w1)) w1)
  end.

(** Waiting on a thread handle.  A wait with [INFINITE] returns only when
    the thread is signalled (or the wait fails): it never reports a
    timeout. *)
Definition WaitForSingleObject (h : HANDLE) (dwMilliseconds : DWORD) : M DWORD :=
  fun w =>
  let w1 := log (Call_WaitForSingleObject h dwMilliseconds) w in
  match handles w !! h with
  | None => (Returned WAIT_FAILED, set_last_error ERROR_INVALID_HANDLE w1)
  | Some t =>
      let exited := match threads w !! t with
                    | Some k => k_exited k
                    | None => false
                    end in
      if exited then (Returned WAIT_OBJECT_0, w1)
      else
        match env_wait (env w) (now w) with
        | Signals =>
            (Returned WAIT_OBJECT_0,
             set_threads
               (alter (fun k => mk_KThread (k_priority k) (k_suspended k) true)
                      t (threads w1)) w1)
        | StillRunning =>
            if dwMilliseconds =? INFINITE then (Hangs, w1)
            else (Returned WAIT_TIMEOUT, w1)
        | WaitFails e => (Returned WAIT_FAILED, set_last_error e w1)
        end
  end.

End Win32.

(** ** Thread::id *)

Record id := mk_id { _id : DWORD }.

(** [Thread::id::id()]: the id of the current thread of execution. *)
Definition id_current (w : World) : id := mk_id (Win32.GetCurrentThreadId w).

(** [operator==] and [operator!=] on ids. *)
Definition id_eq (lhs rhs : id) : bool := _id lhs =? _id rhs.
Definition id_ne (lhs rhs : id) : bool := negb (_id lhs =? _id rhs).

(** ** Thread::Priority and Thread::Options *)

Inductive Priority := LOWEST | LOW | NORMAL | HIGH | HIGHEST | TIME_CRITICAL.

(** The enumerator values of the [enum class], in declaration order. *)
Definition Priority_value (p : Priority) : Z :=
  match p with
  | LOWEST => 0 | LOW => 1 | NORMAL => 2
  | HIGH => 3 | HIGHEST => 4 | TIME_CRITICAL => 5
  end.

Record Options := mk_Options { priority : option Priority }.

(** ** System-API wrappers *)

(** The arms of the [switch] in [_start]. *)
Inductive Arm :=
| case_LOWEST | case_LOW | case_NORMAL | case_HIGH | case_HIGHEST
| case_TIME_CRITICAL | case_default.

(** The [switch] of [_start], on the integer value of the enumeration:
    the arm taken and the value left in [priority]. *)
Definition priority_switch (v : Z) : Arm * Z :=
  if v =? Priority_value LOWEST then (case_LOWEST, THREAD_PRIORITY_LOWEST)
  else if v =? Priority_value LOW then (case_LOW, THREAD_PRIORITY_BELOW_NORMAL)
  else if v =? Priority_value NORMAL then (case_NORMAL, THREAD_PRIORITY_NORMAL)
  else if v =? Priority_value HIGH then (case_HIGH, THREAD_PRIORITY_ABOVE_NORMAL)
  else if v =? Priority_value HIGHEST then (case_HIGHEST, THREAD_PRIORITY_HIGHEST)
  else if v =? Priority_value TIME_CRITICAL
       then (case_TIME_CRITICAL, THREAD_PRIORITY_TIME_CRITICAL)
  else (case_default, THREAD_PRIORITY_NORMAL).

(** Modelled from the spec: the reading of an OS priority as a value of
    the enumeration, which the header does not contain (only the tests call
    a [get_priority]).  The spec orders the enumerators by scheduling
    weight and gives each one OS scheduling class; read back, each Windows
    class is the enumerator of that weight: lowest, below normal, normal,
    above normal, highest, time critical.  Any other OS value is no value
    of the enumeration. *)
Definition Priority_of_os (v : Z) : option Priority :=
  if v =? THREAD_PRIORITY_LOWEST then Some LOWEST
  else if v =? THREAD_PRIORITY_BELOW_NORMAL then Some LOW
  else if v =? THREAD_PRIORITY_NORMAL then Some NORMAL
  else if v =? THREAD_PRIORITY_ABOVE_NORMAL then Some HIGH
  else if v =? THREAD_PRIORITY_HIGHEST then Some HIGHEST
  else if v =? THREAD_PRIORITY_TIME_CRITICAL then Some TIME_CRITICAL
  else None.

Module this_thread.
(** [this_thread::get_id] *)
Definition get_id (w : World) : id := id_current w.

(** Modelled from the spec: [this_thread::get_priority], called by the
    tests and missing from the header: the priority of the calling thread
    as the system holds it, named in the enumeration. *)
Definition get_priority (w : World) : option Priority :=
  match threads w !! Win32.GetCurrentThreadId w with
  | Some k => Priority_of_os (k_priority k)
  | None => None
  end.
End this_thread.

(** [_cleanup_suspended(HANDLE& handle)]; [this] is the Thread whose
    [_handle] the reference denotes. *)
Definition _cleanup_suspended (this : addr) : M unit :=
  do h <- load this;
  run Win32.TerminateThread h 0;
  do h <- load this;
  run Win32.CloseHandle h;
  store this nullptr.

(** [_start(HANDLE& handle, const Options& opt, f, args...)].  The payload
    is what the new thread runs; the handle's lifecycle does not depend on
    it. *)
Definition _start (this : addr) (opt : Options) : M unit :=
  let creation_flag := match priority opt with
                       | Some _ => CREATE_SUSPENDED
                       | None => 0
                       end in
  do r <- Win32._beginthreadex creation_flag;
  run store this r;
  do handle <- load this;
  if handle =? nullptr then
    do e <- gets errno; throw (os_error e)
  else
    if negb (creation_flag =? 0) then
      match priority opt with
      | None => ret tt (* opt.priority.value() cannot be reached without a value *)
      | Some p =>
          let priority := snd (priority_switch (Priority_value p)) in
          do ok <- Win32.SetThreadPriority handle priority;
          if ok =? 0 then
            do err <- Win32.GetLastError;
            run _cleanup_suspended this;
            throw (os_error err)
          else
            do rc <- Win32.ResumeThread handle;
            if rc =? 4294967295 then
              do err <- Win32.GetLastError;
              run _cleanup_suspended this;
              throw (os_error err)
            else ret tt
      end
    else ret tt.

(** [_join(HANDLE& handle, size_t ms_timeout)] *)
Definition _join (this : addr) (ms_timeout : Z) : M bool :=
  do h <- load this;
  do r <- Win32.WaitForSingleObject h (to_DWORD ms_timeout);
  if r =? WAIT_OBJECT_0 then
    do h <- load this;
    run Win32.CloseHandle h;
    run store this nullptr;
    ret true
  else if r =? WAIT_TIMEOUT then
    ret false
  else
    do e <- Win32.GetLastError; throw (os_error e).

(** [_thread_id(HANDLE handle)] *)
Definition _thread_id (w : World) (handle : HANDLE) : DWORD :=
  Win32.GetThreadId w handle.

(** [_detach(HANDLE& handle)] *)
Definition _detach (this : addr) : M unit :=
  do h <- load this;
  do ok <- Win32.CloseHandle h;
  if ok =? 0 then
    do e <- Win32.GetLastError; throw (os_error e)
  else store this nullptr.

(** [_force_join(HANDLE& handle)] *)
Definition _force_join (this : addr) : M unit :=
  do h <- load this;
  run Win32.WaitForSingleObject h INFINITE;
  do h <- load this;
  run Win32.CloseHandle h;
  store this nullptr.

(** ** Thread *)

Module Thread.

(** [Thread::get_id() const] *)
Definition get_id (w : World) (this : addr) : id :=
  if negb (objs w this =? nullptr) then mk_id (_thread_id w (objs w this))
  else id_current w.

(** [Thread::joinable() const] *)
Definition joinable (w : World) (this : addr) : bool :=
  id_ne (get_id w this) (this_thread.get_id w).

(** [Thread::Thread()] *)
Definition ctor (this : addr) : M unit := store this nullptr.

(** [std::swap(_handle, other._handle)] *)
Definition swap_handles (this other : addr) : M unit :=
  do tmp <- load this;
  do o <- load other;
  run store this o;
  store other tmp.

(** [Thread::Thread(Thread&& other)] *)
Definition move_ctor (this other : addr) : M unit :=
  run ctor this;
  swap_handles this other.

(** [Thread::join()] *)
Definition join (this : addr) : M unit :=
  do j <- gets (fun w => joinable w this);
  if negb j then throw (invalid_argument "Thread::join: thread not joinable")
  else run _join this INFINITE; ret tt.

(** [Thread::join(size_t ms_timeout)] *)
Definition join_ms (this : addr) (ms_timeout : Z) : M bool :=
  do j <- gets (fun w => joinable w this);
  if negb j then throw (invalid_argument "Thread::join: thread not joinable")
  else _join this ms_timeout.

(** [Thread::detach()] *)
Definition detach (this : addr) : M unit :=
  do j <- gets (fun w => joinable w this);
  if negb j then throw (invalid_argument "Thread::detach: thread not detachable")
  else _detach this.

(** [Thread::native_handle()] *)
Definition native_handle (this : addr) : M HANDLE :=
  do j <- gets (fun w => joinable w this);
  if negb j then throw (invalid_argument "Thread::native_handle: NULL-thread")
  else load this.

(** [Thread::operator=(Thread&& other)] *)
Definition move_assign (this other : addr) : M unit :=
  do j <- gets (fun w => joinable w this);
  run (if j then join this else ret tt);
  swap_handles this other.

(** [Thread::swap(Thread& other)] *)
Definition swap (this other : addr) : M unit := swap_handles this other.

(** [Thread::Thread(F&& f, Args&&... args)] *)
Definition ctor_start (this : addr) : M unit :=
  run ctor this;
  _start this (mk_Options None).

(** [Thread::Thread(Options opt, F&& f, Args&&... args)] *)
Definition ctor_start_opt (this : addr) (opt : Options) : M unit :=
  run ctor this;
  _start this opt.

(** [Thread::~Thread()] *)
Definition dtor (this : addr) : M unit :=
  do j <- gets (fun w => joinable w this);
  if j then _force_join this else ret tt.

End Thread.

(** [std::swap(simply::Thread& x, simply::Thread& y)] *)
Definition std_swap (x y : addr) : M unit := Thread.swap x y.

(** The two states of a handle. *)
Definition EMPTY (w : World) (this : addr) : Prop := objs w this = nullptr.
Definition LIVE (w : World) (this : addr) : Prop := objs w this <> nullptr.

(** ** Vocabulary of the statements *)

(** What a call leaves alone. *)
Definition frame (w w' : World) (c : list Syscall) : Prop :=
  objs w' = objs w /\ cur w' = cur w /\ env w' = env w /\
  trace w' = trace w ++ c.

(** The system as seen by the thread with id [t]. *)
Definition as_thread (t : DWORD) (w : World) : World :=
  mk_World (objs w) t (handles w) (threads w) (last_error w) (errno w) (trace w) (env w).

Definition env_ok : Env :=
  mk_Env (fun n => Some (Pos.of_nat (8 + 4 * n), 200 + Z.of_nat n))
         (fun _ => 11) (fun _ => None) (fun _ => None) (fun _ => Signals).
Definition env_busy : Env :=
  mk_Env (env_spawn env_ok) (env_errno env_ok) (env_setprio env_ok)
         (env_resume env_ok) (fun _ => StillRunning).
Definition env_wait_fails : Env :=
  mk_Env (env_spawn env_ok) (env_errno env_ok) (env_setprio env_ok)
         (env_resume env_ok) (fun _ => WaitFails 5).

(** The main thread (id 100) before any Thread exists. *)
Definition world_init (e : Env) : World :=
  mk_World (fun _ => nullptr) 100 ∅ ∅ 0 0 [] e.

(** After [simply::Thread t(f);] at address 0. *)
Definition world_started (e : Env) : World :=
  snd (Thread.ctor_start 0%nat (world_init e)).

(** After a second [simply::Thread u(g);] at address 1. *)
Definition world_two (e : Env) : World :=
  snd (Thread.ctor_start 1%nat (world_started e)).

(** The same two situations as seen from inside the thread started at
    address 0 (thread id 200). *)
Definition world_inside : World := as_thread 200 (world_started env_ok).
Definition world_two_inside : World := as_thread 200 (world_two env_ok).

(** ** Thread::id: ordering *)

(** [operator<], [operator<=], [operator>], [operator>=] (before C++20). *)
Definition id_lt (lhs rhs : id) : bool := _id lhs <? _id rhs.
Definition id_le (lhs rhs : id) : bool := _id lhs <=? _id rhs.
Definition id_gt (lhs rhs : id) : bool := _id lhs >? _id rhs.
Definition id_ge (lhs rhs : id) : bool := _id lhs >=? _id rhs.

(** [operator<=>] (from C++20): [Lt], [Eq], [Gt] stand for
    [strong_ordering::less], [equal], [greater]. *)
Definition id_cmp (lhs rhs : id) : comparison := _id lhs ?= _id rhs.

(** ** The waiting loop of examples/02_priority.cpp *)

(** [while ( !t.join(100) ) { std::cout << ... }]: the number of times the
    body ran, or [None] when [fuel] iterations were not enough. *)
Fixpoint wait_loop (fuel : nat) (this : addr) (ms : Z) : M (option nat) :=
  match fuel with
  | O => ret None
  | S fuel' =>
      do joined <- Thread.join_ms this ms;
      if negb joined then
        do n <- wait_loop fuel' this ms;
        ret (option_map S n)
      else ret (Some O)
  end.

(** ** Ownership *)

(** The public operations on handles. *)
Inductive Op :=
| Op_ctor (this : addr)
| Op_ctor_start (this : addr)
| Op_ctor_start_opt (this : addr) (opt : Options)
| Op_move_ctor (this other : addr)
| Op_move_assign (this other : addr)
| Op_swap (this other : addr)
| Op_join (this : addr)
| Op_join_ms (this : addr) (ms_timeout : Z)
| Op_detach (this : addr)
| Op_dtor (this : addr).

Definition ignore {A} (m : M A) : M unit := do _x <- m; ret tt.

Definition exec (op : Op) : M unit :=
  match op with
  | Op_ctor this => Thread.ctor this
  | Op_ctor_start this => Thread.ctor_start this
  | Op_ctor_start_opt this opt => Thread.ctor_start_opt this opt
  | Op_move_ctor this other => Thread.move_ctor this other
  | Op_move_assign this other => Thread.move_assign this other
  | Op_swap this other => Thread.swap this other
  | Op_join this => Thread.join this
  | Op_join_ms this ms => ignore (Thread.join_ms this ms)
  | Op_detach this => Thread.detach this
  | Op_dtor this => Thread.dtor this
  end.

(** No two Thread objects hold the same native reference. *)
Definition exclusive (w : World) : Prop :=
  forall a b : addr, a <> b -> objs w a <> nullptr -> objs w a <> objs w b.

(** Every native reference held by a Thread object is open. *)
Definition held_open (w : World) : Prop :=
  forall a : addr, objs w a <> nullptr -> is_Some (handles w !! objs w a).

(** The system hands out, at its next thread creation, a handle that is not
    open already. *)
Definition fresh_next (w : World) : Prop :=
  match env_spawn (env w) (now w) with
  | Some (hp, _) => handles w !! Z.pos hp = None
  | None => True
  end.

(** An environment in which the thread needs three waits to terminate. *)
Definition env_third : Env :=
  mk_Env (env_spawn env_ok) (env_errno env_ok) (env_setprio env_ok)
         (env_resume env_ok)
         (fun n => if (n <? 5)%nat then StillRunning else Signals).

(** An environment that rejects the priority, and one that refuses to
    resume. *)
Definition env_no_priority : Env :=
  mk_Env (env_spawn env_ok) (env_errno env_ok) (fun _ => Some 5)
         (env_resume env_ok) (env_wait env_ok).
Definition env_no_spawn : Env :=
  mk_Env (fun _ => None) (env_errno env_ok) (env_setprio env_ok)
         (env_resume env_ok) (env_wait env_ok).

(** A handle whose native reference was closed behind its back, through
    [native_handle()]. *)
Definition world_stale : World :=
  snd (Win32.CloseHandle 8 (world_started env_ok)).

(** The thread with id [t] has not terminated. *)
Definition running (w : World) (t : Z) : Prop :=
  match threads w !! t with
  | Some k => k_exited k
  | None => false
  end = false.

(** The two effects an operation can have on one handle and the table of
    open references: the handle gave up its reference, which was closed;
    or nothing changed. *)
Definition released (this : addr) (w w' : World) : Prop :=
  objs w' = <[this := nullptr]> (objs w) /\
  handles w' = delete (objs w this) (handles w).
Definition untouched (w w' : World) : Prop :=
  objs w' = objs w /\ handles w' = handles w.

(** A caller's sequence of operations, and the worlds it goes through. *)
Fixpoint run_ops (ops : list Op) (w : World) : World :=
  match ops with
  | [] => w
  | op :: rest => run_ops rest (snd (exec op w))
  end.

(** Along the sequence, every thread creation gets a handle that is not
    open at that moment. *)
Fixpoint fresh_along (ops : list Op) (w : World) : Prop :=
  match ops with
  | [] => True
  | op :: rest => fresh_next w /\ fresh_along rest (snd (exec op w))
  end.

(** Two threads started, the second moved onto the first, then swapped
    away and detached. *)
Definition sample_ops : list Op :=
  [Op_ctor_start 0%nat;
   Op_ctor_start_opt 1%nat (mk_Options (Some HIGH));
   Op_move_assign 0%nat 1%nat;
   Op_swap 0%nat 2%nat;
   Op_detach 2%nat].

(** ** The queries [get_id] and [joinable] *)
Section Queries.
Variables (w : World) (this : addr).

Lemma get_id_LIVE :
  LIVE w this -> Thread.get_id w this = mk_id (Win32.GetThreadId w (objs w this)).
Proof.
  unfold LIVE, Thread.get_id, _thread_id. intros H.
  destruct (objs w this =? nullptr) eqn:E; [apply Z.eqb_eq in E; contradiction | reflexivity].
Qed.

Lemma get_id_EMPTY :
  EMPTY w this -> Thread.get_id w this = this_thread.get_id w.
Proof.
  unfold EMPTY, Thread.get_id. intros ->. reflexivity.
Qed.

Lemma id_ne_true (a b : id) : id_ne a b = true <-> a <> b.
Proof.
  unfold id_ne. destruct a as [x], b as [y]; simpl.
  rewrite negb_true_iff, Z.eqb_neq. split; congruence.
Qed.

Lemma joinable_EMPTY : EMPTY w this -> Thread.joinable w this = false.
Proof.
  intros H. unfold Thread.joinable. rewrite (get_id_EMPTY H).
  unfold id_ne. now rewrite Z.eqb_refl.
Qed.

Lemma joinable_LIVE : Thread.joinable w this = true -> LIVE w this.
Proof.
  intros H E. rewrite (joinable_EMPTY E) in H. discriminate.
Qed.

Lemma joinable_iff :
  Thread.joinable w this = true <->
  LIVE w this /\ Thread.get_id w this <> this_thread.get_id w.
Proof.
  split.
  - intros H. split; [now apply joinable_LIVE | now apply id_ne_true].
  - intros [_ H]. now apply id_ne_true.
Qed.

End Queries.

Lemma get_id_frame w w' this :
  objs w' = objs w -> handles w' = handles w -> cur w' = cur w ->
  Thread.get_id w' this = Thread.get_id w this /\
  Thread.joinable w' this = Thread.joinable w this.
Proof.
  intros Ho Hh Hc.
  unfold Thread.joinable, this_thread.get_id, Thread.get_id, id_current,
    _thread_id, Win32.GetThreadId, Win32.GetCurrentThreadId.
  now rewrite Ho, Hh, Hc.
Qed.

Lemma get_id_same_handle w w' a b :
  objs w' a = objs w b -> handles w' = handles w -> cur w' = cur w ->
  Thread.get_id w' a = Thread.get_id w b.
Proof.
  intros Ho Hh Hc.
  unfold Thread.get_id, id_current, _thread_id, Win32.GetThreadId,
    Win32.GetCurrentThreadId.
  now rewrite Ho, Hh, Hc.
Qed.

(** ** What each system call does to the world *)
Lemma WaitForSingleObject_spec h ms w :
  exists o w', Win32.WaitForSingleObject h ms w = (o, w') /\
    frame w w' [Call_WaitForSingleObject h ms] /\
    handles w' = handles w /\
    (o = Returned WAIT_OBJECT_0 /\ is_Some (handles w !! h)
     \/ o = Returned WAIT_TIMEOUT /\ ms <> INFINITE /\ threads w' = threads w
     \/ o = Returned WAIT_FAILED /\ threads w' = threads w
     \/ o = Hangs /\ ms = INFINITE /\ threads w' = threads w).
Proof.
  unfold Win32.WaitForSingleObject, frame.
  destruct (handles w !! h) as [t|]; [|do 2 eexists; split; [reflexivity|]; simpl; auto 10].
  destruct (match threads w !! t with Some k => k_exited k | None => false end);
    [do 2 eexists; split; [reflexivity|]; simpl; auto 10 |].
  destruct (env_wait (env w) (now w));
    [do 2 eexists; split; [reflexivity|]; simpl; auto 10 | |
     do 2 eexists; split; [reflexivity|]; simpl; auto 10].
  destruct (ms =? INFINITE) eqn:E;
    [apply Z.eqb_eq in E | apply Z.eqb_neq in E];
    do 2 eexists; (split; [reflexivity|]); simpl; auto 10.
Qed.

Lemma CloseHandle_spec h w :
  exists ok w', Win32.CloseHandle h w = (Returned ok, w') /\
    frame w w' [Call_CloseHandle h] /\
    threads w' = threads w /\
    handles w' = delete h (handles w) /\
    (ok = 0 <-> handles w !! h = None).
Proof.
  unfold Win32.CloseHandle, frame.
  destruct (handles w !! h) as [t|] eqn:E;
    do 2 eexists; (split; [reflexivity|]); simpl; repeat split; auto; try discriminate.
  symmetry. now apply delete_id.
Qed.

Lemma frame_now w w' c : frame w w' [c] -> now w' = S (now w).
Proof.
  intros (_ & _ & _ & Ht). unfold now. rewrite Ht, length_app. cbn. lia.
Qed.

Lemma beginthreadex_spec flag w :
  exists r w',
    Win32._beginthreadex flag w = (Returned r, w') /\
    frame w w' [Call_beginthreadex flag] /\
    match env_spawn (env w) (now w) with
    | None =>
        r = 0 /\ errno w' = env_errno (env w) (now w) /\
        handles w' = handles w /\ threads w' = threads w
    | Some (hp, t) =>
        r = Z.pos hp /\
        handles w' = <[Z.pos hp := t]> (handles w) /\
        threads w' = <[t := mk_KThread THREAD_PRIORITY_NORMAL
                                       (flag =? CREATE_SUSPENDED) false]> (threads w)
    end.
Proof.
  unfold Win32._beginthreadex, frame.
  destruct (env_spawn (env w) (now w)) as [[hp t]|];
    do 2 eexists; (split; [reflexivity|]); cbn; auto 10.
Qed.

Lemma SetThreadPriority_spec h prio w t :
  handles w !! h = Some t ->
  exists r w',
    Win32.SetThreadPriority h prio w = (Returned r, w') /\
    frame w w' [Call_SetThreadPriority h prio] /\
    handles w' = handles w /\
    match env_setprio (env w) (now w) with
    | Some e => r = 0 /\ last_error w' = e /\ threads w' = threads w
    | None =>
        r = 1 /\
        threads w' =
          alter (fun k => mk_KThread prio (k_suspended k) (k_exited k)) t (threads w)
    end.
Proof.
  intros H. unfold Win32.SetThreadPriority, frame. rewrite H.
  destruct (env_setprio (env w) (now w));
    do 2 eexists; (split; [reflexivity|]); cbn; auto 10.
Qed.

Lemma ResumeThread_spec h w t :
  handles w !! h = Some t ->
  exists r w',
    Win32.ResumeThread h w = (Returned r, w') /\
    frame w w' [Call_ResumeThread h] /\
    handles w' = handles w /\
    match env_resume (env w) (now w) with
    | Some e => r = 4294967295 /\ last_error w' = e /\ threads w' = threads w
    | None =>
        (r = 0 \/ r = 1) /\
        threads w' =
          alter (fun k => mk_KThread (k_priority k) false (k_exited k)) t (threads w)
    end.
Proof.
  intros H. unfold Win32.ResumeThread, frame. rewrite H.
  destruct (env_resume (env w) (now w));
    [do 2 eexists; (split; [reflexivity|]); cbn; auto 10|].
  do 2 eexists; (split; [reflexivity|]); cbn.
  repeat split; auto.
  destruct (threads w !! t) as [k|]; [destruct (k_suspended k)|]; auto.
Qed.

Lemma TerminateThread_spec h code w t :
  handles w !! h = Some t ->
  exists w',
    Win32.TerminateThread h code w = (Returned 1, w') /\
    frame w w' [Call_TerminateThread h code] /\
    handles w' = handles w /\
    threads w' =
      alter (fun k => mk_KThread (k_priority k) (k_suspended k) true) t (threads w).
Proof.
  intros H. unfold Win32.TerminateThread, frame. rewrite H.
  eexists; (split; [reflexivity|]); cbn; auto 10.
Qed.

(** ** The wrappers *)

(** The four ways [_join] can end, by what the wait reports. *)
Lemma _join_spec this ms w :
  let h := objs w this in
  let wait := Call_WaitForSingleObject h (to_DWORD ms) in
  let verdict := fst (Win32.WaitForSingleObject h (to_DWORD ms) w) in
  exists o w', _join this ms w = (o, w') /\ cur w' = cur w /\ env w' = env w /\
    (o = Returned true /\ verdict = Returned WAIT_OBJECT_0 /\
       objs w' = <[this := nullptr]> (objs w) /\
       handles w' = delete h (handles w) /\
       trace w' = trace w ++ [wait; Call_CloseHandle h]
     \/ o = Returned false /\ verdict = Returned WAIT_TIMEOUT /\
       to_DWORD ms <> INFINITE /\
       objs w' = objs w /\ handles w' = handles w /\ threads w' = threads w /\
       trace w' = trace w ++ [wait]
     \/ o = Thrown (os_error (last_error w')) /\ verdict = Returned WAIT_FAILED /\
       objs w' = objs w /\ handles w' = handles w /\ threads w' = threads w /\
       trace w' = trace w ++ [wait]
     \/ o = Hangs /\ verdict = Hangs /\ to_DWORD ms = INFINITE /\
       objs w' = objs w /\ handles w' = handles w /\ threads w' = threads w /\
       trace w' = trace w ++ [wait]).
Proof.
  intros h wait verdict. subst verdict wait.
  unfold _join, bind, load, gets. fold h.
  destruct (WaitForSingleObject_spec h (to_DWORD ms) w)
    as (o & w1 & HW & (Ho & Hc & He & Ht) & Hh & Hcase).
  rewrite HW. simpl fst.
  destruct Hcase as [[-> _]|[(-> & Hne & Hth)|[(-> & Hth)|(-> & Hinf & Hth)]]].
  - change (WAIT_OBJECT_0 =? WAIT_OBJECT_0) with true. cbv iota beta.
    rewrite Ho. fold h.
    destruct (CloseHandle_spec h w1) as (ok & w2 & HC & (Ho2 & Hc2 & He2 & Ht2) & _ & Hh2 & _).
    rewrite HC. unfold store, modify, ret.
    do 2 eexists; split; [reflexivity|]. simpl.
    rewrite Hc2, Hc, He2, He. do 2 (split; [reflexivity|]). left.
    rewrite Ho2, Ho, Hh2, Hh, Ht2, Ht, <- app_assoc. auto.
  - change (WAIT_TIMEOUT =? WAIT_OBJECT_0) with false.
    change (WAIT_TIMEOUT =? WAIT_TIMEOUT) with true. cbv iota beta. unfold ret.
    do 2 eexists; split; [reflexivity|]. auto 12.
  - change (WAIT_FAILED =? WAIT_OBJECT_0) with false.
    change (WAIT_FAILED =? WAIT_TIMEOUT) with false. cbv iota beta.
    unfold Win32.GetLastError, gets, throw.
    do 2 eexists; split; [reflexivity|]. auto 12.
  - do 2 eexists; split; [reflexivity|]. auto 12.
Qed.

Lemma _detach_spec this w :
  let h := objs w this in
  exists o w', _detach this w = (o, w') /\ cur w' = cur w /\ env w' = env w /\
    trace w' = trace w ++ [Call_CloseHandle h] /\
    (o = Returned tt /\ is_Some (handles w !! h) /\
       objs w' = <[this := nullptr]> (objs w) /\
       handles w' = delete h (handles w)
     \/ o = Thrown (os_error (last_error w')) /\ handles w !! h = None /\
       objs w' = objs w /\ handles w' = handles w).
Proof.
  intros h. unfold _detach, bind, load, gets. fold h.
  destruct (CloseHandle_spec h w) as (ok & w1 & HC & (Ho & Hc & He & Ht) & _ & Hh & Hok).
  rewrite HC.
  destruct (ok =? 0) eqn:E.
  - apply Z.eqb_eq, Hok in E. unfold Win32.GetLastError, gets, throw.
    do 2 eexists; split; [reflexivity|]. repeat (split; [assumption|]). right.
    rewrite Hh, delete_id by assumption. auto.
  - apply Z.eqb_neq in E. unfold store, modify.
    do 2 eexists; split; [reflexivity|]. simpl. repeat (split; [assumption|]). left.
    rewrite Ho. repeat split; auto.
    destruct (handles w !! h) eqn:E'; [eauto | destruct E; now apply Hok].
Qed.

Lemma cleanup_suspended_spec this w t :
  handles w !! objs w this = Some t ->
  let h := objs w this in
  exists w',
    _cleanup_suspended this w = (Returned tt, w') /\
    objs w' = <[this := nullptr]> (objs w) /\
    cur w' = cur w /\ env w' = env w /\
    trace w' = trace w ++ [Call_TerminateThread h 0; Call_CloseHandle h] /\
    handles w' = delete h (handles w) /\
    threads w' =
      alter (fun k => mk_KThread (k_priority k) (k_suspended k) true) t (threads w).
Proof.
  intros H h. unfold _cleanup_suspended, bind, load, gets. fold h.
  destruct (TerminateThread_spec h 0 w t H) as (w1 & -> & (Ho & Hc & He & Ht) & Hh & Hth).
  rewrite Ho. fold h.
  destruct (CloseHandle_spec h w1) as (ok & w2 & -> & (Ho2 & Hc2 & He2 & Ht2) & Hth2 & Hh2 & _).
  unfold store, modify. eexists. split; [reflexivity|]. cbn.
  rewrite Ho2, Ho, Hc2, Hc, He2, He, Ht2, Ht, Hh2, Hh, Hth2, Hth, <- app_assoc.
  auto 10.
Qed.

Lemma swap_handles_eq this other w :
  Thread.swap_handles this other w =
    (Returned tt,
     set_objs (<[other := objs w this]> (<[this := objs w other]> (objs w))) w).
Proof. reflexivity. Qed.

Lemma priority_switch_inverse p :
  Priority_of_os (snd (priority_switch (Priority_value p))) = Some p.
Proof. destruct p; reflexivity. Qed.

(** [_start] with a priority, by the answers of the environment to the
    creation (at time [n]), to the priority request (at [n+1]) and to the
    resume (at [n+2]). *)
Lemma start_priority_spec (w : World) (this : addr) (p : Priority) :
  let n := now w in
  let prio := snd (priority_switch (Priority_value p)) in
  let created := Call_beginthreadex CREATE_SUSPENDED in
  exists o w',
    _start this (mk_Options (Some p)) w = (o, w') /\
    match env_spawn (env w) n with
    | None =>
        o = Thrown (os_error (env_errno (env w) n)) /\
        trace w' = trace w ++ [created] /\
        EMPTY w' this /\ handles w' = handles w /\ threads w' = threads w
    | Some (hp, t) =>
        let h := Z.pos hp in
        let cleanup := [Call_TerminateThread h 0; Call_CloseHandle h] in
        match env_setprio (env w) (S n) with
        | Some e =>
            o = Thrown (os_error e) /\
            trace w' = trace w ++ [created; Call_SetThreadPriority h prio] ++ cleanup /\
            EMPTY w' this /\ handles w' !! h = None /\
            exists k, threads w' !! t = Some k /\ k_exited k = true
        | None =>
            match env_resume (env w) (S (S n)) with
            | Some e =>
                o = Thrown (os_error e) /\
                trace w' = trace w ++ [created; Call_SetThreadPriority h prio;
                                       Call_ResumeThread h] ++ cleanup /\
                EMPTY w' this /\ handles w' !! h = None /\
                exists k, threads w' !! t = Some k /\ k_exited k = true
            | None =>
                o = Returned tt /\
                trace w' = trace w ++ [created; Call_SetThreadPriority h prio;
                                       Call_ResumeThread h] /\
                objs w' this = h /\ handles w' !! h = Some t /\
                exists k, threads w' !! t = Some k /\ k_priority k = prio /\
                          k_suspended k = false /\ k_exited k = false
            end
        end
    end.
Proof.
  intros n prio created.
  unfold _start. cbn [priority].
  unfold bind, store, modify, load, gets, throw, ret, Win32.GetLastError.
  destruct (beginthreadex_spec CREATE_SUSPENDED w)
    as (r & w1 & -> & (Ho & Hc & He & Ht) & Hsp).
  pose proof (frame_now w w1 _ (conj Ho (conj Hc (conj He Ht)))) as Hn1.
  fold n in Hsp, Hn1. cbn [objs set_objs]. rewrite fn_lookup_insert.
  destruct (env_spawn (env w) n) as [[hp t]|].
  - destruct Hsp as (-> & Hh1 & Hth1).
    change (Z.pos hp =? nullptr) with false.
    change (negb (CREATE_SUSPENDED =? 0)) with true. cbv iota.
    fold prio.
    set (w1' := set_objs (<[this:=Z.pos hp]> (objs w1)) w1).
    assert (Hl1 : handles w1' !! Z.pos hp = Some t).
    { subst w1'. cbn. rewrite Hh1. apply lookup_insert_eq. }
    destruct (SetThreadPriority_spec (Z.pos hp) prio w1' t Hl1)
      as (ok & w2 & -> & (Ho2 & Hc2 & He2 & Ht2) & Hh2 & Hsp2).
    pose proof (frame_now w1' w2 _ (conj Ho2 (conj Hc2 (conj He2 Ht2)))) as Hn2.
    assert (E1 : env w1' = env w) by (subst w1'; cbn; exact He).
    assert (N1 : now w1' = S n) by (subst w1'; exact Hn1).
    rewrite E1, N1 in Hsp2. rewrite N1 in Hn2.
    assert (O2 : objs w2 this = Z.pos hp).
    { rewrite Ho2. subst w1'. cbn. apply fn_lookup_insert. }
    assert (L2 : handles w2 !! objs w2 this = Some t) by (rewrite O2, Hh2; exact Hl1).
    assert (T1 : trace w1' = trace w ++ [created]) by (subst w1'; cbn; exact Ht).
    assert (TH1 : threads w1' !! t =
                  Some (mk_KThread THREAD_PRIORITY_NORMAL true false)).
    { subst w1'. cbn. rewrite Hth1. apply lookup_insert_eq. }
    destruct (env_setprio (env w) (S n)) as [e|].
    + destruct Hsp2 as (-> & Hle & Hth2).
      change (0 =? 0) with true. unfold gets; cbv beta iota.
      destruct (cleanup_suspended_spec this w2 t L2)
        as (w3 & -> & Ho3 & _ & _ & Ht3 & Hh3 & Hth3).
      do 2 eexists. split; [reflexivity|]. rewrite Hle. split; [reflexivity|].
      rewrite O2 in Ht3, Hh3.
      split; [rewrite Ht3, Ht2, T1, <- !app_assoc; reflexivity|].
      split; [unfold EMPTY; rewrite Ho3; apply fn_lookup_insert|].
      split; [rewrite Hh3; apply lookup_delete_eq|].
      eexists. rewrite Hth3, Hth2, lookup_alter_eq, TH1. cbn. split; reflexivity.
    + destruct Hsp2 as (-> & Hth2).
      change (1 =? 0) with false. unfold gets; cbv beta iota.
      assert (Hl2 : handles w2 !! Z.pos hp = Some t) by (rewrite Hh2; exact Hl1).
      destruct (ResumeThread_spec (Z.pos hp) w2 t Hl2)
        as (rc & w3 & -> & (Ho3 & Hc3 & He3 & Ht3) & Hh3 & Hsp3).
      rewrite He2, E1, Hn2 in Hsp3.
      assert (TH2 : threads w2 !! t = Some (mk_KThread prio true false)).
      { rewrite Hth2, lookup_alter_eq, TH1. reflexivity. }
      destruct (env_resume (env w) (S (S n))) as [e|].
      * destruct Hsp3 as (-> & Hle & Hth3).
        change (4294967295 =? 4294967295) with true. unfold gets; cbv beta iota.
        assert (L3 : handles w3 !! objs w3 this = Some t)
          by (rewrite Ho3, O2, Hh3; exact Hl2).
        destruct (cleanup_suspended_spec this w3 t L3)
          as (w4 & -> & Ho4 & _ & _ & Ht4 & Hh4 & Hth4).
        do 2 eexists. split; [reflexivity|]. rewrite Hle. split; [reflexivity|].
        rewrite Ho3, O2 in Ht4, Hh4.
        split; [rewrite Ht4, Ht3, Ht2, T1, <- !app_assoc; reflexivity|].
        split; [unfold EMPTY; rewrite Ho4; apply fn_lookup_insert|].
        split; [rewrite Hh4; apply lookup_delete_eq|].
        eexists. rewrite Hth4, Hth3, lookup_alter_eq, TH2. cbn. split; reflexivity.
      * destruct Hsp3 as (Hrc & Hth3).
        assert ((rc =? 4294967295) = false) as -> by (destruct Hrc as [->| ->]; reflexivity).
        do 2 eexists. split; [reflexivity|]. split; [reflexivity|].
        split; [rewrite Ht3, Ht2, T1, <- !app_assoc; reflexivity|].
        split; [rewrite Ho3; exact O2|].
        split; [rewrite Hh3; exact Hl2|].
        eexists. rewrite Hth3, lookup_alter_eq, TH2. cbn. repeat split; reflexivity.
  - destruct Hsp as (-> & Herr & Hh1 & Hth1).
    change (0 =? nullptr) with true. cbv iota. cbn [errno set_objs].
    do 2 eexists. split; [reflexivity|]. rewrite Herr.
    split; [reflexivity|]. cbn. unfold EMPTY. cbn.
    rewrite fn_lookup_insert. auto.
Qed.

(** [_start] without a priority: one call, no suspension. *)
Lemma start_default_spec (w : World) (this : addr) :
  exists o w',
    _start this (mk_Options None) w = (o, w') /\
    trace w' = trace w ++ [Call_beginthreadex 0] /\
    match env_spawn (env w) (now w) with
    | None =>
        o = Thrown (os_error (env_errno (env w) (now w))) /\
        EMPTY w' this /\ handles w' = handles w
    | Some (hp, t) =>
        o = Returned tt /\ objs w' this = Z.pos hp /\
        handles w' !! Z.pos hp = Some t
    end.
Proof.
  unfold _start. cbn [priority].
  unfold bind, store, modify, load, gets, throw, ret.
  destruct (beginthreadex_spec 0 w) as (r & w1 & -> & (Ho & Hc & He & Ht) & Hsp).
  cbn [objs set_objs]. rewrite fn_lookup_insert.
  destruct (env_spawn (env w) (now w)) as [[hp t]|].
  - destruct Hsp as (-> & Hh1 & _).
    change (Z.pos hp =? nullptr) with false.
    change (negb (0 =? 0)) with false. cbv iota.
    do 2 eexists. split; [reflexivity|]. cbn.
    rewrite fn_lookup_insert, Hh1, lookup_insert_eq. auto.
  - destruct Hsp as (-> & Herr & Hh1 & _).
    change (0 =? nullptr) with true. cbv iota. cbn [errno set_objs].
    do 2 eexists. split; [reflexivity|]. rewrite Herr. unfold EMPTY. cbn.
    rewrite fn_lookup_insert. auto.
Qed.

(** ** The guard on [joinable()] in [join], [join(ms)] and [detach] *)
Section Guards.
Variables (w : World) (this : addr).

Lemma join_not_joinable :
  Thread.joinable w this = false ->
  Thread.join this w =
    (Thrown (invalid_argument "Thread::join: thread not joinable"), w).
Proof. intros H. unfold Thread.join, bind, gets. now rewrite H. Qed.

Lemma join_ms_not_joinable ms :
  Thread.joinable w this = false ->
  Thread.join_ms this ms w =
    (Thrown (invalid_argument "Thread::join: thread not joinable"), w).
Proof. intros H. unfold Thread.join_ms, bind, gets. now rewrite H. Qed.

Lemma detach_not_joinable :
  Thread.joinable w this = false ->
  Thread.detach this w =
    (Thrown (invalid_argument "Thread::detach: thread not detachable"), w).
Proof. intros H. unfold Thread.detach, bind, gets. now rewrite H. Qed.

Lemma join_ms_joinable ms :
  Thread.joinable w this = true -> Thread.join_ms this ms w = _join this ms w.
Proof. intros H. unfold Thread.join_ms, bind, gets. now rewrite H. Qed.

Lemma detach_joinable :
  Thread.joinable w this = true -> Thread.detach this w = _detach this w.
Proof. intros H. unfold Thread.detach, bind, gets. now rewrite H. Qed.

Lemma join_joinable :
  Thread.joinable w this = true ->
  Thread.join this w =
    match _join this INFINITE w with
    | (Returned _, w') => (Returned tt, w')
    | (Thrown e, w') => (Thrown e, w')
    | (Hangs, w') => (Hangs, w')
    end.
Proof. intros H. unfold Thread.join, bind, gets, ret. now rewrite H. Qed.

(** A join that returns has emptied the handle. *)
Lemma join_returned_EMPTY w' :
  Thread.join this w = (Returned tt, w') ->
  EMPTY w' this /\ cur w' = cur w /\
  trace w' = trace w ++ [Call_WaitForSingleObject (objs w this) INFINITE;
                         Call_CloseHandle (objs w this)].
Proof.
  destruct (Thread.joinable w this) eqn:J.
  - rewrite (join_joinable J).
    destruct (_join_spec this INFINITE w) as (o & w1 & -> & Hc & _ & Hcase).
    destruct Hcase as [(-> & _ & Ho & _ & Ht)|[(-> & _ & Hne & _)|[(-> & _)|(-> & _)]]];
      try discriminate.
    + intros [= <-]. unfold EMPTY. rewrite Ho, fn_lookup_insert. auto.
    + now destruct Hne.
  - rewrite (join_not_joinable J). discriminate.
Qed.

Lemma detach_returned_EMPTY w' :
  Thread.detach this w = (Returned tt, w') -> EMPTY w' this /\ cur w' = cur w.
Proof.
  destruct (Thread.joinable w this) eqn:J.
  - rewrite (detach_joinable J).
    destruct (_detach_spec this w) as (o & w1 & -> & Hc & _ & _ & Hcase).
    destruct Hcase as [(-> & _ & Ho & _)|(-> & _)]; try discriminate.
    intros [= <-]. unfold EMPTY. rewrite Ho, fn_lookup_insert. auto.
  - rewrite (detach_not_joinable J). discriminate.
Qed.

End Guards.

(** What [native_handle()] does on a joinable and on an EMPTY handle. *)
Lemma native_handle_joinable w this :
  Thread.joinable w this = true ->
  Thread.native_handle this w = (Returned (objs w this), w).
Proof. intros J. unfold Thread.native_handle, bind, gets, load. now rewrite J. Qed.

Lemma native_handle_EMPTY w this :
  EMPTY w this ->
  Thread.native_handle this w =
    (Thrown (invalid_argument "Thread::native_handle: NULL-thread"), w).
Proof.
  intros E. unfold Thread.native_handle, bind, gets.
  now rewrite (joinable_EMPTY _ _ E).
Qed.

(** The destructor of an EMPTY handle does nothing; it is what runs when a
    payload constructor throws after [Thread()] has completed. *)
Lemma dtor_EMPTY w this :
  EMPTY w this -> Thread.dtor this w = (Returned tt, w).
Proof.
  intros E. unfold Thread.dtor, bind, gets, ret.
  now rewrite (joinable_EMPTY _ _ E).
Qed.

Lemma move_ctor_source_EMPTY w this other :
  this <> other -> EMPTY (snd (Thread.move_ctor this other w)) other.
Proof.
  intros H. unfold EMPTY. cbn. rewrite fn_lookup_insert.
  rewrite fn_lookup_insert. reflexivity.
Qed.

Lemma moved_from_EMPTY w w' this other :
  this <> other -> objs w this = nullptr ->
  w' = set_objs (<[other := objs w this]> (<[this := objs w other]> (objs w))) w ->
  EMPTY w' other /\ Thread.joinable w' other = false /\
  Thread.get_id w' other = this_thread.get_id w' /\
  objs w' this = objs w other /\
  Thread.get_id w' this = Thread.get_id w other /\
  trace w' = trace w.
Proof.
  intros Hne Hd ->.
  assert (E : EMPTY (set_objs (<[other:=objs w this]> (<[this:=objs w other]> (objs w))) w) other).
  { unfold EMPTY. cbn. now rewrite fn_lookup_insert. }
  split; [exact E|]. split; [now apply joinable_EMPTY|].
  split; [now apply get_id_EMPTY|].
  assert (Ho : objs (set_objs (<[other:=objs w this]> (<[this:=objs w other]> (objs w))) w) this
               = objs w other).
  { cbn. rewrite fn_lookup_insert_ne by congruence. now rewrite fn_lookup_insert. }
  split; [exact Ho|]. split; [now apply get_id_same_handle | reflexivity].
Qed.

(** A [join(ms)] that returned true has emptied the handle. *)
Lemma join_ms_true_EMPTY w w' this ms :
  Thread.join_ms this ms w = (Returned true, w') ->
  EMPTY w' this /\ cur w' = cur w.
Proof.
  destruct (Thread.joinable w this) eqn:J.
  - rewrite (join_ms_joinable _ _ ms J).
    destruct (_join_spec this ms w) as (o & w1 & -> & Hc & _ & Hcase).
    destruct Hcase as [(-> & _ & Ho & _)|[(-> & _)|[(-> & _)|(-> & _)]]];
      try discriminate.
    intros [= <-]. unfold EMPTY. rewrite Ho, fn_lookup_insert. auto.
  - rewrite (join_ms_not_joinable _ _ ms J). discriminate.
Qed.

Lemma id_ne_false (a b : id) : id_ne a b = false -> a = b.
Proof.
  unfold id_ne. destruct a as [x], b as [y]; simpl.
  rewrite negb_false_iff, Z.eqb_eq. congruence.
Qed.

(** The source of a move assignment that returned: whatever it holds
    afterwards, it is not joinable and its id is the calling thread's. *)
Lemma move_assign_source w w' dst this :
  Thread.move_assign dst this w = (Returned tt, w') ->
  Thread.joinable w' this = false /\
  Thread.get_id w' this = mk_id (cur w') /\ cur w' = cur w.
Proof.
  unfold Thread.move_assign, bind, gets.
  destruct (Thread.joinable w dst) eqn:J.
  - destruct (Thread.join dst w) as [[[]| |] w1] eqn:Ej; try discriminate.
    rewrite swap_handles_eq. intros [= <-].
    destruct (join_returned_EMPTY _ _ _ Ej) as (Em & Hc & _).
    assert (E : EMPTY (set_objs (<[this:=objs w1 dst]> (<[dst:=objs w1 this]> (objs w1))) w1)
                      this).
    { unfold EMPTY. cbn. rewrite fn_lookup_insert. exact Em. }
    split; [now apply joinable_EMPTY|].
    split; [rewrite (get_id_EMPTY _ _ E); reflexivity | exact Hc].
  - unfold ret. rewrite swap_handles_eq. intros [= <-].
    assert (G : Thread.get_id
                  (set_objs (<[this:=objs w dst]> (<[dst:=objs w this]> (objs w))) w) this
                = Thread.get_id w dst).
    { apply get_id_same_handle; try reflexivity. cbn. apply fn_lookup_insert. }
    apply id_ne_false in J.
    split; [|split; [|reflexivity]].
    + unfold Thread.joinable. rewrite G, J. unfold id_ne. cbn.
      now rewrite Z.eqb_refl.
    + rewrite G, J. reflexivity.
Qed.

(** ** The claims *)

(** C1.  The calling thread's id is that of the thread that runs the call.
    [get_id()] is the id of the owned native thread while the handle is
    LIVE (the id the system holds for the open reference) and the id of
    the calling thread while it is EMPTY; [joinable()] holds exactly when
    the handle is LIVE and that id differs from the calling thread's.
    Hence a handle that was default-constructed, moved from (by move
    construction or by a move assignment that returned), joined (by
    [join()] or by a [join(ms)] that returned true) or detached is not
    joinable and its id is the calling thread's, [this_thread::get_id()]. *)
Theorem get_id_and_joinable (w : World) (this : addr) :
  this_thread.get_id w = mk_id (cur w) /\
  (LIVE w this ->
     Thread.get_id w this = mk_id (Win32.GetThreadId w (objs w this)) /\
     forall t, handles w !! objs w this = Some t -> Thread.get_id w this = mk_id t) /\
  (EMPTY w this ->
     Thread.get_id w this = mk_id (cur w) /\
     Thread.get_id w this = this_thread.get_id w) /\
  (Thread.joinable w this = true <->
     LIVE w this /\ Thread.get_id w this <> this_thread.get_id w) /\
  (Thread.joinable w this = true <->
     LIVE w this /\ Win32.GetThreadId w (objs w this) <> cur w) /\
  (forall w',
     w' = snd (Thread.ctor this w)
     \/ (exists dst, dst <> this /\ w' = snd (Thread.move_ctor dst this w))
     \/ (exists dst, Thread.move_assign dst this w = (Returned tt, w'))
     \/ Thread.join this w = (Returned tt, w')
     \/ (exists ms, Thread.join_ms this ms w = (Returned true, w'))
     \/ Thread.detach this w = (Returned tt, w') ->
     Thread.joinable w' this = false /\
     Thread.get_id w' this = mk_id (cur w') /\
     Thread.get_id w' this = this_thread.get_id w' /\
     cur w' = cur w).
Proof.
  split; [reflexivity|].
  split.
  { intros L. pose proof (get_id_LIVE _ _ L) as G. split; [exact G|].
    intros t Ht. rewrite G. unfold Win32.GetThreadId. now rewrite Ht. }
  split; [intros E; split; [rewrite (get_id_EMPTY _ _ E); reflexivity
                           | now apply get_id_EMPTY]|].
  split; [apply joinable_iff|].
  split.
  { rewrite joinable_iff. split; intros [L H]; (split; [exact L|]);
      rewrite (get_id_LIVE _ _ L) in *; unfold this_thread.get_id, id_current,
      Win32.GetCurrentThreadId in *; congruence. }
  intros w' H.
  assert (E : EMPTY w' this /\ cur w' = cur w
              \/ exists dst, Thread.move_assign dst this w = (Returned tt, w')).
  { destruct H as [->|[(dst & Hne & ->)|[(dst & H)|[H|[(ms & H)|H]]]]].
    - left. split; [|reflexivity]. unfold EMPTY. cbn. apply fn_lookup_insert.
    - left. split; [now apply move_ctor_source_EMPTY | reflexivity].
    - right. eauto.
    - left. destruct (join_returned_EMPTY _ _ _ H) as (Em & Hc & _). auto.
    - left. now apply (join_ms_true_EMPTY w w' this ms).
    - left. now apply (detach_returned_EMPTY _ _ _ H). }
  destruct E as [[E Hc]|(dst & H')].
  - split; [now apply joinable_EMPTY|].
    split; [rewrite (get_id_EMPTY _ _ E); reflexivity|].
    split; [now apply get_id_EMPTY | exact Hc].
  - destruct (move_assign_source _ _ _ _ H') as (J & G & Hc).
    split; [exact J|]. split; [exact G|]. split; [rewrite G; reflexivity | exact Hc].
Qed.

Lemma get_id_and_joinable_witness :
  Thread.get_id (world_started env_ok) 0%nat = mk_id 200 /\
  Thread.joinable (world_started env_ok) 0%nat = true /\
  Thread.get_id (world_init env_ok) 0%nat = mk_id 100 /\
  Thread.joinable (snd (Thread.join 0%nat (world_started env_ok))) 0%nat = false /\
  Thread.get_id (snd (Thread.join_ms 0%nat 50 (world_started env_ok))) 0%nat = mk_id 100 /\
  Thread.get_id (snd (Thread.move_assign 0%nat 1%nat world_two_inside)) 1%nat = mk_id 200.
Proof.
  destruct (get_id_and_joinable (world_started env_ok) 0%nat)
    as (_ & H1 & _ & _ & H3 & H4).
  destruct (get_id_and_joinable (world_init env_ok) 0%nat) as (_ & _ & H2 & _).
  destruct (get_id_and_joinable world_two_inside 1%nat) as (_ & _ & _ & _ & _ & H5).
  split; [apply H1; [vm_compute; discriminate | reflexivity]|].
  split; [apply H3; split; vm_compute; discriminate|].
  split; [apply H2; reflexivity|].
  split.
  - apply (H4 (snd (Thread.join 0%nat (world_started env_ok)))).
    do 3 right. left. vm_compute. reflexivity.
  - split.
    + apply (H4 (snd (Thread.join_ms 0%nat 50 (world_started env_ok)))).
      do 4 right. left. exists 50. vm_compute. reflexivity.
    + apply (H5 (snd (Thread.move_assign 0%nat 1%nat world_two_inside))).
      do 2 right. left. exists 0%nat. vm_compute. reflexivity.
Defined.

(** C2.  On a handle that is not joinable, [join()], [join(ms)] and
    [detach()] throw the invalid-argument error and leave the world as it
    was: no wait is issued, so nothing blocks, and nothing is closed.  In
    particular, after a [join()] that returned, the handle is not joinable
    and a second [join()] throws that error. *)
Theorem not_joinable_operations_fail (w : World) (this : addr) :
  (Thread.joinable w this = false ->
   forall ms : Z,
   exists e1 e2 e3,
     Thread.join this w = (Thrown e1, w) /\
     Thread.join_ms this ms w = (Thrown e2, w) /\
     Thread.detach this w = (Thrown e3, w) /\
     is_invalid_operation e1 = true /\
     is_invalid_operation e2 = true /\
     is_invalid_operation e3 = true) /\
  (forall w',
   Thread.join this w = (Returned tt, w') ->
   Thread.joinable w' this = false /\
   exists e, Thread.join this w' = (Thrown e, w') /\
             is_invalid_operation e = true).
Proof.
  split.
  - intros J ms. do 3 eexists.
    rewrite (join_not_joinable _ _ J), (join_ms_not_joinable _ _ ms J),
      (detach_not_joinable _ _ J).
    repeat split; reflexivity.
  - intros w' H. apply join_returned_EMPTY in H as (E & _).
    pose proof (joinable_EMPTY _ _ E) as J. split; [exact J|].
    eexists. rewrite (join_not_joinable _ _ J). split; reflexivity.
Qed.

Lemma not_joinable_operations_fail_witness :
  (exists e, Thread.join 0%nat (world_init env_ok) = (Thrown e, world_init env_ok) /\
             is_invalid_operation e = true) /\
  (exists e, Thread.join 0%nat (snd (Thread.join 0%nat (world_started env_ok)))
             = (Thrown e, snd (Thread.join 0%nat (world_started env_ok))) /\
             is_invalid_operation e = true).
Proof.
  split.
  - destruct (not_joinable_operations_fail (world_init env_ok) 0%nat) as [H _].
    destruct (H eq_refl 0) as (e1 & _ & _ & H1 & _ & _ & H2 & _).
    exists e1. split; assumption.
  - destruct (not_joinable_operations_fail (world_started env_ok) 0%nat) as [_ H].
    apply (H (snd (Thread.join 0%nat (world_started env_ok)))).
    vm_compute. reflexivity.
Defined.

(** C3.  The payload constructor given a priority creates the thread
    suspended, then sets the priority, then resumes.  If the creation
    fails it throws the OS error after that one call, with no cleanup
    call.  If the priority request or the resume fails it terminates the
    thread, closes the handle, leaves the handle EMPTY and throws the OS
    error of the failed call.  Otherwise the handle is LIVE and the thread
    runs at the requested priority. *)
Theorem start_with_priority_protocol (w : World) (this : addr) (p : Priority) :
  let n := now w in
  let prio := snd (priority_switch (Priority_value p)) in
  let created := Call_beginthreadex CREATE_SUSPENDED in
  exists o w',
    Thread.ctor_start_opt this (mk_Options (Some p)) w = (o, w') /\
    match env_spawn (env w) n with
    | None =>
        o = Thrown (os_error (env_errno (env w) n)) /\
        trace w' = trace w ++ [created] /\
        EMPTY w' this /\ handles w' = handles w /\ threads w' = threads w
    | Some (hp, t) =>
        let h := Z.pos hp in
        let cleanup := [Call_TerminateThread h 0; Call_CloseHandle h] in
        match env_setprio (env w) (S n) with
        | Some e =>
            o = Thrown (os_error e) /\
            trace w' = trace w ++ [created; Call_SetThreadPriority h prio] ++ cleanup /\
            EMPTY w' this /\ handles w' !! h = None /\
            exists k, threads w' !! t = Some k /\ k_exited k = true
        | None =>
            match env_resume (env w) (S (S n)) with
            | Some e =>
                o = Thrown (os_error e) /\
                trace w' = trace w ++ [created; Call_SetThreadPriority h prio;
                                       Call_ResumeThread h] ++ cleanup /\
                EMPTY w' this /\ handles w' !! h = None /\
                exists k, threads w' !! t = Some k /\ k_exited k = true
            | None =>
                o = Returned tt /\
                trace w' = trace w ++ [created; Call_SetThreadPriority h prio;
                                       Call_ResumeThread h] /\
                objs w' this = h /\ handles w' !! h = Some t /\
                exists k, threads w' !! t = Some k /\ k_priority k = prio /\
                          k_suspended k = false /\ k_exited k = false
            end
        end
    end.
Proof.
  intros n prio created.
  unfold Thread.ctor_start_opt, Thread.ctor, bind, store, modify.
  apply (start_priority_spec (set_objs (<[this := nullptr]> (objs w)) w) this p).
Qed.

(** What [join(ms)] does on a joinable handle, by what the wait reports;
    the wait is given the bound converted to DWORD.  When it reports the
    thread terminated, [join(ms)] returns true, the handle is EMPTY and the
    native reference is closed; when it reports a timeout, [join(ms)]
    returns false (a result, not an exception) and the handle stays LIVE,
    with the same reference and id, and joinable. *)
Theorem join_ms_outcomes (w : World) (this : addr) (ms_timeout : Z) :
  Thread.joinable w this = true ->
  let h := objs w this in
  let verdict := fst (Win32.WaitForSingleObject h (to_DWORD ms_timeout) w) in
  (verdict = Returned WAIT_OBJECT_0 ->
   exists w',
     Thread.join_ms this ms_timeout w = (Returned true, w') /\
     EMPTY w' this /\
     handles w' !! h = None /\
     trace w' = trace w ++ [Call_WaitForSingleObject h (to_DWORD ms_timeout);
                            Call_CloseHandle h]) /\
  (verdict = Returned WAIT_TIMEOUT ->
   exists w',
     Thread.join_ms this ms_timeout w = (Returned false, w') /\
     LIVE w' this /\
     objs w' = objs w /\ handles w' = handles w /\
     Thread.get_id w' this = Thread.get_id w this /\
     Thread.joinable w' this = true /\
     trace w' = trace w ++ [Call_WaitForSingleObject h (to_DWORD ms_timeout)]).
Proof.
  intros J h verdict. rewrite (join_ms_joinable _ _ ms_timeout J).
  destruct (_join_spec this ms_timeout w) as (o & w' & -> & Hc & _ & Hcase).
  fold h verdict in Hcase.
  split; intros V; rewrite V in Hcase; exists w';
    destruct Hcase as [(-> & HV & Ho & Hh & Ht)|[(-> & HV & _ & Ho & Hh & _ & Ht)
                      |[(_ & HV & _)|(_ & HV & _)]]];
    try (vm_compute in HV; discriminate HV).
  - split; [reflexivity|]. split; [|split; [|exact Ht]].
    + unfold EMPTY. now rewrite Ho, fn_lookup_insert.
    + rewrite Hh. apply lookup_delete_eq.
  - split; [reflexivity|].
    destruct (get_id_frame w w' this Ho Hh Hc) as [Hi Hj].
    split; [|repeat split; congruence].
    unfold LIVE. rewrite Ho. now apply joinable_LIVE.
Qed.

Lemma join_ms_outcomes_witness :
  (exists w', Thread.join_ms 0%nat 100 (world_started env_ok) = (Returned true, w') /\
              EMPTY w' 0%nat) /\
  (exists w', Thread.join_ms 0%nat 0 (world_started env_busy) = (Returned false, w') /\
              LIVE w' 0%nat).
Proof.
  split.
  - destruct (join_ms_outcomes (world_started env_ok) 0%nat 100 eq_refl) as [H _].
    destruct (H eq_refl) as (w' & H1 & H2 & _). exists w'. split; assumption.
  - destruct (join_ms_outcomes (world_started env_busy) 0%nat 0 eq_refl) as [_ H].
    destruct (H eq_refl) as (w' & H1 & H2 & _). exists w'. split; assumption.
Defined.

(** C4.  The bound of [join(ms)] is not always the bound of the wait.  On
    a thread that keeps running, a bound of 4294967295 ms reaches the wait
    as INFINITE: the call never returns, where it should return false once
    the bound has elapsed.  A bound of 2^32 + 7 ms reaches the wait as
    7 ms, after which the call returns false, whether or not the thread
    would have terminated within the bound asked for. *)
Theorem join_ms_bound_is_narrowed :
  Thread.joinable (world_started env_busy) 0%nat = true /\
  fst (Thread.join_ms 0%nat 4294967295 (world_started env_busy)) = Hangs /\
  trace (snd (Thread.join_ms 0%nat 4294967295 (world_started env_busy)))
    = [Call_beginthreadex 0; Call_WaitForSingleObject 8 INFINITE] /\
  fst (Thread.join_ms 0%nat (2 ^ 32 + 7) (world_started env_busy)) = Returned false /\
  trace (snd (Thread.join_ms 0%nat (2 ^ 32 + 7) (world_started env_busy)))
    = [Call_beginthreadex 0; Call_WaitForSingleObject 8 7].
Proof. vm_compute. repeat split; reflexivity. Qed.

(** C5 as stated does not hold.  Thread 200 move-assigns onto the handle
    that owns thread 200 itself: the destination is LIVE but not joinable,
    so no wait is issued, and the swap leaves the source holding the
    destination's old reference instead of EMPTY. *)
Lemma move_assign_onto_own_thread :
  LIVE world_two_inside 0%nat /\
  Thread.get_id world_two_inside 0%nat = mk_id 200 /\
  LIVE world_two_inside 1%nat /\
  Thread.get_id world_two_inside 1%nat = mk_id 201 /\
  exists w',
    Thread.move_assign 0%nat 1%nat world_two_inside = (Returned tt, w') /\
    trace w' = [Call_beginthreadex 0; Call_beginthreadex 0] /\
    ~ EMPTY w' 1%nat /\ objs w' 1%nat = 8.
Proof.
  vm_compute. repeat split; try congruence.
  eexists. repeat split; congruence.
Qed.

(** C5, amended.  For two distinct handles: move construction, and move
    assignment onto an EMPTY destination, return with the source EMPTY (not
    joinable, its id the moving thread's own) and the destination holding
    the source's original reference with its id, without any system call.
    Move assignment onto a joinable destination first waits, unbounded, on
    the destination's thread; when the assignment returns, the old
    reference has been closed, the source is EMPTY and the destination
    holds the source's original reference, with its id when the two
    handles did not share one reference; when the wait fails or never
    returns, nothing is transferred. *)
Theorem move_transfers_ownership (w : World) (this other : addr) :
  this <> other ->
  (exists w',
     Thread.move_ctor this other w = (Returned tt, w') /\
     EMPTY w' other /\ Thread.joinable w' other = false /\
     Thread.get_id w' other = this_thread.get_id w' /\
     objs w' this = objs w other /\
     Thread.get_id w' this = Thread.get_id w other /\
     trace w' = trace w) /\
  (EMPTY w this ->
   exists w',
     Thread.move_assign this other w = (Returned tt, w') /\
     EMPTY w' other /\ Thread.joinable w' other = false /\
     Thread.get_id w' other = this_thread.get_id w' /\
     objs w' this = objs w other /\
     Thread.get_id w' this = Thread.get_id w other /\
     trace w' = trace w) /\
  (Thread.joinable w this = true ->
   let hd := objs w this in
   exists o w' rest,
     Thread.move_assign this other w = (o, w') /\
     trace w' = trace w ++ Call_WaitForSingleObject hd INFINITE :: rest /\
     (o = Returned tt ->
      rest = [Call_CloseHandle hd] /\
      EMPTY w' other /\ Thread.joinable w' other = false /\
      Thread.get_id w' other = this_thread.get_id w' /\
      objs w' this = objs w other /\
      (objs w other <> hd -> Thread.get_id w' this = Thread.get_id w other)) /\
     (o <> Returned tt -> rest = [] /\ objs w' = objs w /\ handles w' = handles w)).
Proof.
  intros Hne. split; [|split].
  - unfold Thread.move_ctor, Thread.ctor, bind, store, modify.
    rewrite swap_handles_eq. eexists. split; [reflexivity|].
    set (w0 := set_objs (<[this:=nullptr]> (objs w)) w).
    assert (H0 : objs w0 this = nullptr) by (subst w0; cbn; apply fn_lookup_insert).
    destruct (moved_from_EMPTY w0 _ this other Hne H0 eq_refl)
      as (E & J & I & Ho & Hi & Ht).
    assert (Hoth : objs w0 other = objs w other)
      by (subst w0; cbn; now rewrite fn_lookup_insert_ne).
    split; [exact E|]. split; [exact J|]. split; [exact I|].
    split; [now rewrite Ho|]. split; [|exact Ht].
    rewrite Hi. now apply get_id_same_handle.
  - intros E. unfold Thread.move_assign, bind, gets, ret.
    rewrite (joinable_EMPTY _ _ E), swap_handles_eq.
    eexists. split; [reflexivity|].
    now apply (moved_from_EMPTY w _ this other Hne E).
  - intros J hd. unfold Thread.move_assign, bind, gets. rewrite J.
    rewrite (join_joinable _ _ J).
    destruct (_join_spec this INFINITE w) as (o & w1 & -> & Hc & _ & Hcase).
    change (to_DWORD INFINITE) with INFINITE in Hcase. fold hd in Hcase.
    destruct Hcase as [(-> & _ & Ho & Hh & Ht)|[(-> & _ & Hne' & _)
                      |[(-> & _ & Ho & Hh & _ & Ht)|(-> & _ & _ & Ho & Hh & _ & Ht)]]].
    + rewrite swap_handles_eq. do 3 eexists. split; [reflexivity|].
      assert (H1 : objs w1 this = nullptr) by (rewrite Ho; apply fn_lookup_insert).
      assert (Hoth : objs w1 other = objs w other)
        by (rewrite Ho; now rewrite fn_lookup_insert_ne).
      destruct (moved_from_EMPTY w1 _ this other Hne H1 eq_refl)
        as (E & J' & I & Ho' & Hi & Ht').
      split; [rewrite Ht', Ht; reflexivity|]. split; [|intros X; now destruct X].
      intros _. repeat (split; [first [reflexivity | assumption | congruence]|]).
      intros Hdist. rewrite Hi.
      unfold Thread.get_id, id_current, _thread_id, Win32.GetThreadId,
        Win32.GetCurrentThreadId.
      rewrite Hoth, Hh, Hc. now rewrite lookup_delete_ne by congruence.
    + now destruct Hne'.
    + do 3 eexists. split; [reflexivity|]. split; [exact Ht|].
      split; [discriminate | auto].
    + do 3 eexists. split; [reflexivity|]. split; [exact Ht|].
      split; [discriminate | auto].
Qed.

Lemma move_transfers_ownership_witness :
  (exists w', Thread.move_ctor 2%nat 0%nat (world_two env_ok) = (Returned tt, w') /\
              EMPTY w' 0%nat /\ objs w' 2%nat = 8) /\
  (exists w', Thread.move_assign 2%nat 0%nat (world_two env_ok) = (Returned tt, w') /\
              EMPTY w' 0%nat /\ objs w' 2%nat = 8) /\
  (exists w' rest,
     Thread.move_assign 0%nat 1%nat (world_two env_ok) = (Returned tt, w') /\
     trace w' = trace (world_two env_ok) ++ Call_WaitForSingleObject 8 INFINITE :: rest /\
     EMPTY w' 1%nat /\ objs w' 0%nat = 12 /\ Thread.get_id w' 0%nat = mk_id 201).
Proof.
  split; [|split].
  - destruct (move_transfers_ownership (world_two env_ok) 2%nat 0%nat ltac:(lia))
      as ((w' & H & E & _ & _ & Ho & _) & _).
    exists w'. auto.
  - destruct (move_transfers_ownership (world_two env_ok) 2%nat 0%nat ltac:(lia))
      as (_ & H & _).
    destruct (H eq_refl) as (w' & H1 & E & _ & _ & Ho & _). exists w'. auto.
  - destruct (move_transfers_ownership (world_two env_ok) 0%nat 1%nat ltac:(lia))
      as (_ & _ & H).
    destruct (H eq_refl) as (o & w' & rest & H1 & Ht & Hr & _).
    assert (Eo : o = Returned tt).
    { pose proof (f_equal fst H1) as X. vm_compute in X. congruence. }
    destruct (Hr Eo) as (_ & E & _ & _ & Ho & Hi).
    exists w', rest. subst o.
    split; [exact H1|]. split; [exact Ht|]. split; [exact E|]. split; [exact Ho|].
    rewrite Hi; [reflexivity | vm_compute; congruence].
Defined.

(** C6.  Every value of the enumeration takes its own named arm of the
    [switch] and gets one OS priority constant; the [default] arm is not
    taken for any of them. *)
Theorem priority_mapping_total (p : Priority) :
  priority_switch (Priority_value p) =
    match p with
    | LOWEST => (case_LOWEST, THREAD_PRIORITY_LOWEST)
    | LOW => (case_LOW, THREAD_PRIORITY_BELOW_NORMAL)
    | NORMAL => (case_NORMAL, THREAD_PRIORITY_NORMAL)
    | HIGH => (case_HIGH, THREAD_PRIORITY_ABOVE_NORMAL)
    | HIGHEST => (case_HIGHEST, THREAD_PRIORITY_HIGHEST)
    | TIME_CRITICAL => (case_TIME_CRITICAL, THREAD_PRIORITY_TIME_CRITICAL)
    end /\
  fst (priority_switch (Priority_value p)) <> case_default.
Proof. destruct p; split; (reflexivity || discriminate). Qed.

Lemma priority_mapping_total_witness :
  fst (priority_switch (Priority_value TIME_CRITICAL)) <> case_default.
Proof. apply (priority_mapping_total TIME_CRITICAL). Defined.

(** The safety net is there for values outside the enumeration. *)
Example priority_switch_out_of_range :
  priority_switch 6 = (case_default, THREAD_PRIORITY_NORMAL).
Proof. reflexivity. Qed.

(** C7.  [swap] (and [std::swap]) on any two handles, EMPTY or LIVE, equal
    or not, returns; the two native references are exchanged, so the ids
    are; other handles and the system are untouched and no system call is
    issued, so it cannot block or fail. *)
Theorem swap_exchanges_references (w : World) (x y : addr) :
  exists w',
    Thread.swap x y w = (Returned tt, w') /\
    std_swap x y w = (Returned tt, w') /\
    objs w' x = objs w y /\ objs w' y = objs w x /\
    (forall z, z <> x -> z <> y -> objs w' z = objs w z) /\
    Thread.get_id w' x = Thread.get_id w y /\
    Thread.get_id w' y = Thread.get_id w x /\
    handles w' = handles w /\ threads w' = threads w /\
    trace w' = trace w.
Proof.
  unfold std_swap, Thread.swap. rewrite swap_handles_eq.
  eexists. do 2 (split; [reflexivity|]).
  assert (Hx : objs (set_objs (<[y:=objs w x]> (<[x:=objs w y]> (objs w))) w) x = objs w y).
  { cbn. destruct (decide (y = x)) as [->|Hne].
    - now rewrite fn_lookup_insert.
    - rewrite fn_lookup_insert_ne by assumption. now rewrite fn_lookup_insert. }
  assert (Hy : objs (set_objs (<[y:=objs w x]> (<[x:=objs w y]> (objs w))) w) y = objs w x).
  { cbn. now rewrite fn_lookup_insert. }
  split; [exact Hx|]. split; [exact Hy|].
  split.
  { intros z Hzx Hzy. cbn. rewrite !fn_lookup_insert_ne by congruence. reflexivity. }
  split; [now apply get_id_same_handle|].
  split; [now apply get_id_same_handle|].
  auto.
Qed.

Lemma swap_exchanges_references_witness :
  exists w',
    Thread.swap 0%nat 2%nat (world_two env_ok) = (Returned tt, w') /\
    objs w' 0%nat = nullptr /\ objs w' 2%nat = 8 /\ objs w' 1%nat = 12.
Proof.
  destruct (swap_exchanges_references (world_two env_ok) 0%nat 2%nat)
    as (w' & H & _ & Hx & Hy & Hz & _).
  exists w'. split; [exact H|]. split; [exact Hx|]. split; [exact Hy|].
  apply (Hz 1%nat); lia.
Defined.

(** C8.  The documented contract of [native_handle()] is to throw for a
    NULL thread only.  Called by the owned thread itself on its LIVE handle
    (reference 8, open, thread 200), it throws the NULL-thread error. *)
Theorem native_handle_from_own_thread :
  LIVE world_inside 0%nat /\
  objs world_inside 0%nat = 8 /\
  handles world_inside !! 8 = Some 200 /\
  Thread.get_id world_inside 0%nat = this_thread.get_id world_inside /\
  Thread.native_handle 0%nat world_inside =
    (Thrown (invalid_argument "Thread::native_handle: NULL-thread"), world_inside).
Proof.
  vm_compute. repeat split; congruence.
Qed.

(** C9.  A thread started with a priority other than TIME_CRITICAL, asked
    for its priority from inside itself, reports the priority it was
    started with. *)
Theorem started_thread_reports_priority
    (w : World) (this : addr) (p : Priority) (w' : World) :
  p <> TIME_CRITICAL ->
  Thread.ctor_start_opt this (mk_Options (Some p)) w = (Returned tt, w') ->
  let t := Win32.GetThreadId w' (objs w' this) in
  LIVE w' this /\
  (exists k, threads w' !! t = Some k /\
             k_priority k = snd (priority_switch (Priority_value p))) /\
  this_thread.get_priority (as_thread t w') = Some p.
Proof.
  intros _ H t.
  destruct (start_priority_spec (snd (Thread.ctor this w)) this p)
    as (o & w1 & E & Hcase).
  change (_start this (mk_Options (Some p)) (snd (Thread.ctor this w)))
    with (Thread.ctor_start_opt this (mk_Options (Some p)) w) in E.
  rewrite H in E. injection E as <- <-.
  destruct (env_spawn _ _) as [[hp t']|]; [|destruct Hcase as (? & _); discriminate].
  destruct (env_setprio _ _); [destruct Hcase as (? & _); discriminate|].
  destruct (env_resume _ _); [destruct Hcase as (? & _); discriminate|].
  destruct Hcase as (_ & _ & Ho & Hh & k & Hk & Hp & _).
  assert (Ht : t = t').
  { subst t. unfold Win32.GetThreadId. now rewrite Ho, Hh. }
  rewrite Ht. split; [unfold LIVE; rewrite Ho; discriminate|].
  split; [eauto|].
  unfold this_thread.get_priority, Win32.GetCurrentThreadId. cbn.
  rewrite Hk, Hp. apply priority_switch_inverse.
Qed.

Lemma started_thread_reports_priority_witness :
  this_thread.get_priority
    (as_thread 200
       (snd (Thread.ctor_start_opt 0%nat (mk_Options (Some HIGH)) (world_init env_ok))))
  = Some HIGH.
Proof.
  apply (started_thread_reports_priority (world_init env_ok) 0%nat HIGH
           (snd (Thread.ctor_start_opt 0%nat (mk_Options (Some HIGH)) (world_init env_ok)))).
  - discriminate.
  - vm_compute. reflexivity.
Defined.

(** C10.  When the wait of [join()] or of [join(ms)] on a joinable handle
    reports neither that the thread terminated nor a timeout, the OS error
    is thrown and nothing has been closed or cleared: the handle is LIVE
    with the same reference and id and still joinable, and a further join
    issues the wait on the same reference again. *)
Theorem wait_failure_leaves_handle_LIVE
    (w : World) (this : addr) (ms_timeout : Z) (r : DWORD) :
  Thread.joinable w this = true ->
  r <> WAIT_OBJECT_0 -> r <> WAIT_TIMEOUT ->
  let h := objs w this in
  (fst (Win32.WaitForSingleObject h INFINITE w) = Returned r ->
   exists e w',
     Thread.join this w = (Thrown e, w') /\ is_os_error e = true /\
     trace w' = trace w ++ [Call_WaitForSingleObject h INFINITE] /\
     objs w' = objs w /\ handles w' = handles w /\ threads w' = threads w /\
     LIVE w' this /\
     Thread.get_id w' this = Thread.get_id w this /\
     Thread.joinable w' this = true /\
     exists rest,
       trace (snd (Thread.join this w')) =
       trace w' ++ Call_WaitForSingleObject h INFINITE :: rest) /\
  (fst (Win32.WaitForSingleObject h (to_DWORD ms_timeout) w) = Returned r ->
   exists e w',
     Thread.join_ms this ms_timeout w = (Thrown e, w') /\ is_os_error e = true /\
     trace w' = trace w ++ [Call_WaitForSingleObject h (to_DWORD ms_timeout)] /\
     objs w' = objs w /\ handles w' = handles w /\ threads w' = threads w /\
     LIVE w' this /\
     Thread.get_id w' this = Thread.get_id w this /\
     Thread.joinable w' this = true /\
     exists rest,
       trace (snd (Thread.join_ms this ms_timeout w')) =
       trace w' ++ Call_WaitForSingleObject h (to_DWORD ms_timeout) :: rest).
Proof.
  intros J R0 RT h.
  assert (retry : forall ms w', objs w' = objs w ->
            exists rest, trace (snd (_join this ms w')) =
              trace w' ++ Call_WaitForSingleObject h (to_DWORD ms) :: rest).
  { intros ms w' Ho.
    destruct (_join_spec this ms w') as (o & w2 & -> & _ & _ & Hcase).
    rewrite Ho in Hcase. fold h in Hcase. simpl snd.
    destruct Hcase as [(_ & _ & _ & _ & Ht)|[(_ & _ & _ & _ & _ & _ & Ht)
                      |[(_ & _ & _ & _ & _ & Ht)|(_ & _ & _ & _ & _ & _ & Ht)]]];
      rewrite Ht; eauto. }
  assert (failed : forall ms w' o,
            _join this ms w = (o, w') ->
            fst (Win32.WaitForSingleObject h (to_DWORD ms) w) = Returned r ->
            o = Thrown (os_error (last_error w')) /\
            trace w' = trace w ++ [Call_WaitForSingleObject h (to_DWORD ms)] /\
            objs w' = objs w /\ handles w' = handles w /\ threads w' = threads w /\
            LIVE w' this /\
            Thread.get_id w' this = Thread.get_id w this /\
            Thread.joinable w' this = true).
  { intros ms w' o E V.
    destruct (_join_spec this ms w) as (o1 & w1 & E1 & Hc & _ & Hcase).
    rewrite E in E1. injection E1 as <- <-. fold h in Hcase. rewrite V in Hcase.
    destruct Hcase as [(_ & HV & _)|[(_ & HV & _)|[(-> & _ & Ho & Hh & Hth & Ht)
                      |(_ & HV & _)]]];
      try (injection HV as ->; contradiction); try discriminate HV.
    destruct (get_id_frame w w' this Ho Hh Hc) as [Hi Hj].
    split; [reflexivity|]. do 4 (split; [assumption|]).
    split; [unfold LIVE; rewrite Ho; now apply joinable_LIVE|].
    split; congruence. }
  split; intros V.
  - rewrite (join_joinable _ _ J).
    destruct (_join this INFINITE w) as [o w'] eqn:E.
    destruct (failed INFINITE w' o E V) as (-> & Ht & Ho & Hh & Hth & HL & Hi & J').
    do 2 eexists. split; [reflexivity|]. split; [reflexivity|].
    do 7 (split; [assumption|]).
    rewrite (join_joinable _ _ J').
    destruct (retry INFINITE w' Ho) as (rest & Hr). exists rest.
    change (to_DWORD INFINITE) with INFINITE in Hr.
    destruct (_join this INFINITE w') as [[?| |] ?]; exact Hr.
  - rewrite (join_ms_joinable _ _ ms_timeout J).
    destruct (_join this ms_timeout w) as [o w'] eqn:E.
    destruct (failed ms_timeout w' o E V) as (-> & Ht & Ho & Hh & Hth & HL & Hi & J').
    do 2 eexists. split; [reflexivity|]. split; [reflexivity|].
    do 7 (split; [assumption|]).
    rewrite (join_ms_joinable _ _ ms_timeout J').
    apply (retry ms_timeout w' Ho).
Qed.

Lemma wait_failure_leaves_handle_LIVE_witness :
  (exists e w', Thread.join 0%nat (world_started env_wait_fails) = (Thrown e, w') /\
                is_os_error e = true /\ Thread.joinable w' 0%nat = true) /\
  (exists e w', Thread.join_ms 0%nat 50 (world_started env_wait_fails) = (Thrown e, w') /\
                is_os_error e = true /\ Thread.joinable w' 0%nat = true).
Proof.
  destruct (wait_failure_leaves_handle_LIVE (world_started env_wait_fails) 0%nat 50
              WAIT_FAILED eq_refl ltac:(discriminate) ltac:(discriminate))
    as [H1 H2].
  split.
  - destruct (H1 eq_refl) as (e & w' & Ha & Hb & _ & _ & _ & _ & _ & _ & Hj & _).
    exists e, w'. auto.
  - destruct (H2 eq_refl) as (e & w' & Ha & Hb & _ & _ & _ & _ & _ & _ & Hj & _).
    exists e, w'. auto.
Defined.

(** ** Further properties of the header *)

Section IdOrder.
Variables a b c : id.

Lemma id_eq_iff : id_eq a b = true <-> a = b.
Proof.
  unfold id_eq. destruct a as [x], b as [y]; simpl.
  rewrite Z.eqb_eq. split; congruence.
Qed.

(** X1.  The comparison operators of [Thread::id] agree with one
    another: [!=] negates [==], [<=] is [<] or [==], [>] is [<] with the
    operands exchanged, [>=] negates [<]; [<] is irreflexive and transitive
    and exactly one of [<], [==], [>] holds; [<=>] answers less, equal and
    greater exactly when [<], equality and [>] hold. *)
Theorem id_comparisons_consistent :
  id_ne a b = negb (id_eq a b) /\
  id_le a b = (id_lt a b || id_eq a b) /\
  id_gt a b = id_lt b a /\
  id_ge a b = negb (id_lt a b) /\
  id_lt a a = false /\
  (id_lt a b = true -> id_lt b c = true -> id_lt a c = true) /\
  (id_lt a b = true /\ id_eq a b = false /\ id_gt a b = false
   \/ id_lt a b = false /\ id_eq a b = true /\ id_gt a b = false
   \/ id_lt a b = false /\ id_eq a b = false /\ id_gt a b = true) /\
  (id_cmp a b = Lt <-> id_lt a b = true) /\
  (id_cmp a b = Eq <-> a = b) /\
  (id_cmp a b = Gt <-> id_gt a b = true).
Proof.
  unfold id_ne, id_le, id_gt, id_ge, id_lt, id_eq, id_cmp.
  destruct a as [x], b as [y], c as [z]; cbn [_id].
  rewrite Z.gtb_ltb, Z.geb_leb.
  split; [reflexivity|].
  split; [destruct (x <=? y) eqn:L, (x <? y) eqn:L', (x =? y) eqn:E; auto; lia|].
  split; [reflexivity|].
  split; [destruct (y <=? x) eqn:L, (x <? y) eqn:L'; auto; lia|].
  split; [apply Z.ltb_irrefl|].
  split; [rewrite !Z.ltb_lt; lia|].
  split; [destruct (x <? y) eqn:L, (x =? y) eqn:E, (y <? x) eqn:G; auto 10; lia|].
  split; [rewrite Z.compare_lt_iff, Z.ltb_lt; reflexivity|].
  split; [rewrite Z.compare_eq_iff; split; congruence|].
  rewrite Z.compare_gt_iff, Z.ltb_lt; reflexivity.
Qed.

End IdOrder.

Lemma id_comparisons_consistent_witness :
  id_lt (mk_id 100) (mk_id 300) = true /\
  id_cmp (mk_id 100) (mk_id 200) = Lt.
Proof.
  destruct (id_comparisons_consistent (mk_id 100) (mk_id 200) (mk_id 300))
    as (_ & _ & _ & _ & _ & T & _ & L & _).
  split; [apply T; reflexivity | apply L; reflexivity].
Defined.

(** X3.  The priority table keeps the order of the enumeration: a higher
    enumerator gets a strictly higher OS priority, so no two enumerators
    share one. *)
Theorem priority_mapping_monotone (p q : Priority) :
  (Priority_value p < Priority_value q ->
   snd (priority_switch (Priority_value p)) < snd (priority_switch (Priority_value q))) /\
  (snd (priority_switch (Priority_value p)) = snd (priority_switch (Priority_value q)) ->
   p = q).
Proof.
  split; destruct p, q; cbn; intros H; first [reflexivity | lia | discriminate H].
Qed.

Lemma priority_mapping_monotone_witness :
  snd (priority_switch (Priority_value HIGHEST))
  < snd (priority_switch (Priority_value TIME_CRITICAL)).
Proof. apply (priority_mapping_monotone HIGHEST TIME_CRITICAL). cbn. lia. Defined.

(** The constructor without options, in full. *)
Lemma ctor_start_spec (w : World) (this : addr) :
  exists o w',
    Thread.ctor_start this w = (o, w') /\
    cur w' = cur w /\ env w' = env w /\
    trace w' = trace w ++ [Call_beginthreadex 0] /\
    (forall a, a <> this -> objs w' a = objs w a) /\
    match env_spawn (env w) (now w) with
    | None =>
        o = Thrown (os_error (env_errno (env w) (now w))) /\
        objs w' this = nullptr /\
        handles w' = handles w /\ threads w' = threads w
    | Some (hp, t) =>
        o = Returned tt /\ objs w' this = Z.pos hp /\
        handles w' = <[Z.pos hp := t]> (handles w) /\
        threads w' = <[t := mk_KThread THREAD_PRIORITY_NORMAL false false]> (threads w)
    end.
Proof.
  unfold Thread.ctor_start, Thread.ctor, _start. cbn [priority].
  unfold bind, store, modify, load, gets, throw, ret.
  set (w0 := set_objs (<[this:=nullptr]> (objs w)) w).
  destruct (beginthreadex_spec 0 w0) as (r & w1 & -> & (Ho & Hc & He & Ht) & Hsp).
  change (env w0) with (env w) in *. change (now w0) with (now w) in *.
  change (trace w0) with (trace w) in *. change (cur w0) with (cur w) in *.
  change (handles w0) with (handles w) in *. change (threads w0) with (threads w) in *.
  cbn [objs set_objs]. rewrite fn_lookup_insert.
  assert (Hoth : forall r' a, a <> this ->
            (<[this:=r']> (objs w1)) a = objs w a).
  { intros r' a Ha. rewrite fn_lookup_insert_ne by congruence.
    rewrite Ho. subst w0. cbn. now rewrite fn_lookup_insert_ne by congruence. }
  destruct (env_spawn (env w) (now w)) as [[hp t]|].
  - destruct Hsp as (-> & Hh1 & Hth1).
    change (Z.pos hp =? nullptr) with false.
    change (negb (0 =? 0)) with false. cbv iota.
    do 2 eexists. split; [reflexivity|]. cbn.
    rewrite fn_lookup_insert. auto 10.
  - destruct Hsp as (-> & Herr & Hh1 & Hth1).
    change (0 =? nullptr) with true. cbv iota. cbn [errno set_objs].
    do 2 eexists. split; [reflexivity|]. rewrite Herr. cbn.
    rewrite fn_lookup_insert. auto 10.
Qed.

(** What [_start] with a priority does to the handles and to the table of
    open references. *)
Lemma start_priority_footprint (w : World) (this : addr) (p : Priority) :
  exists o w',
    _start this (mk_Options (Some p)) w = (o, w') /\
    cur w' = cur w /\
    (forall a, a <> this -> objs w' a = objs w a) /\
    match env_spawn (env w) (now w) with
    | None =>
        (exists e, o = Thrown (os_error e)) /\
        objs w' this = nullptr /\ handles w' = handles w
    | Some (hp, t) =>
        o = Returned tt /\ objs w' this = Z.pos hp /\
        handles w' = <[Z.pos hp := t]> (handles w)
        \/ (exists e, o = Thrown (os_error e)) /\ objs w' this = nullptr /\
           handles w' = delete (Z.pos hp) (<[Z.pos hp := t]> (handles w))
    end.
Proof.
  unfold _start. cbn [priority].
  unfold bind, store, modify, load, gets, throw, ret, Win32.GetLastError.
  destruct (beginthreadex_spec CREATE_SUSPENDED w)
    as (r & w1 & -> & (Ho & Hc & He & Ht) & Hsp).
  cbn [objs set_objs]. rewrite fn_lookup_insert.
  destruct (env_spawn (env w) (now w)) as [[hp t]|].
  - destruct Hsp as (-> & Hh1 & Hth1).
    change (Z.pos hp =? nullptr) with false.
    change (negb (CREATE_SUSPENDED =? 0)) with true. cbv iota.
    set (prio := snd (priority_switch (Priority_value p))).
    set (w1' := set_objs (<[this:=Z.pos hp]> (objs w1)) w1).
    assert (Hl1 : handles w1' !! Z.pos hp = Some t).
    { subst w1'. cbn. rewrite Hh1. apply lookup_insert_eq. }
    assert (Hoth1 : forall a, a <> this -> objs w1' a = objs w a).
    { intros a Ha. subst w1'. cbn. rewrite fn_lookup_insert_ne by congruence.
      now rewrite Ho. }
    assert (Hthis1 : objs w1' this = Z.pos hp)
      by (subst w1'; cbn; apply fn_lookup_insert).
    assert (Hc1 : cur w1' = cur w) by (subst w1'; cbn; exact Hc).
    assert (Hh1' : handles w1' = <[Z.pos hp:=t]> (handles w))
      by (subst w1'; cbn; exact Hh1).
    clearbody w1'.
    destruct (SetThreadPriority_spec (Z.pos hp) prio w1' t Hl1)
      as (ok & w2 & -> & (Ho2 & Hc2 & He2 & Ht2) & Hh2 & Hsp2).
    assert (L2 : handles w2 !! objs w2 this = Some t)
      by (rewrite Ho2, Hthis1, Hh2; exact Hl1).
    destruct (env_setprio (env w1') (now w1')) as [e|].
    + destruct Hsp2 as (-> & Hle & Hth2).
      change (0 =? 0) with true. unfold gets; cbv beta iota.
      destruct (cleanup_suspended_spec this w2 t L2)
        as (w3 & -> & Ho3 & Hc3 & _ & _ & Hh3 & _).
      do 2 eexists. split; [reflexivity|].
      split; [congruence|].
      split; [intros a Ha; rewrite Ho3, fn_lookup_insert_ne, Ho2 by congruence; auto|].
      right. split; [eauto|]. split; [rewrite Ho3; apply fn_lookup_insert|].
      rewrite Hh3, Ho2, Hthis1, Hh2, Hh1'. reflexivity.
    + destruct Hsp2 as (-> & Hth2).
      change (1 =? 0) with false. unfold gets; cbv beta iota.
      assert (Hl2 : handles w2 !! Z.pos hp = Some t) by (rewrite Hh2; exact Hl1).
      destruct (ResumeThread_spec (Z.pos hp) w2 t Hl2)
        as (rc & w3 & -> & (Ho3 & Hc3 & He3 & Ht3) & Hh3 & Hsp3).
      destruct (env_resume (env w2) (now w2)) as [e|].
      * destruct Hsp3 as (-> & Hle & Hth3).
        change (4294967295 =? 4294967295) with true. unfold gets; cbv beta iota.
        assert (L3 : handles w3 !! objs w3 this = Some t)
          by (rewrite Ho3, Ho2, Hthis1, Hh3; exact Hl2).
        destruct (cleanup_suspended_spec this w3 t L3)
          as (w4 & -> & Ho4 & Hc4 & _ & _ & Hh4 & _).
        do 2 eexists. split; [reflexivity|].
        split; [congruence|].
        split; [intros a Ha; rewrite Ho4, fn_lookup_insert_ne, Ho3, Ho2 by congruence;
                auto|].
        right. split; [eauto|]. split; [rewrite Ho4; apply fn_lookup_insert|].
        rewrite Hh4, Ho3, Ho2, Hthis1, Hh3, Hh2, Hh1'. reflexivity.
      * destruct Hsp3 as (Hrc & Hth3).
        assert ((rc =? 4294967295) = false) as ->
          by (destruct Hrc as [->| ->]; reflexivity).
        do 2 eexists. split; [reflexivity|].
        split; [congruence|].
        split; [intros a Ha; rewrite Ho3, Ho2; auto|].
        left. split; [reflexivity|]. split; [rewrite Ho3, Ho2; exact Hthis1|].
        rewrite Hh3, Hh2. exact Hh1'.
  - destruct Hsp as (-> & Herr & Hh1 & Hth1).
    change (0 =? nullptr) with true. cbv iota. cbn [errno set_objs].
    do 2 eexists. split; [reflexivity|]. cbn.
    split; [exact Hc|].
    split; [intros a Ha; rewrite fn_lookup_insert_ne by congruence; now rewrite Ho|].
    split; [eauto|]. rewrite fn_lookup_insert. auto.
Qed.

(** Either payload constructor, by what it does to the handles and to the
    table of open references. *)
Lemma payload_ctor_footprint (w : World) (this : addr) (opt : Options) :
  exists o w',
    Thread.ctor_start_opt this opt w = (o, w') /\
    cur w' = cur w /\
    (forall a, a <> this -> objs w' a = objs w a) /\
    match env_spawn (env w) (now w) with
    | None =>
        (exists e, o = Thrown (os_error e)) /\
        objs w' this = nullptr /\ handles w' = handles w
    | Some (hp, t) =>
        o = Returned tt /\ objs w' this = Z.pos hp /\
        handles w' = <[Z.pos hp := t]> (handles w)
        \/ (exists e, o = Thrown (os_error e)) /\ objs w' this = nullptr /\
           handles w' = delete (Z.pos hp) (<[Z.pos hp := t]> (handles w))
    end.
Proof.
  destruct opt as [[p|]].
  - unfold Thread.ctor_start_opt, Thread.ctor, bind, store, modify.
    set (w0 := set_objs (<[this:=nullptr]> (objs w)) w).
    destruct (start_priority_footprint w0 this p) as (o & w' & E & Hc & Ho & Hcase).
    exists o, w'. split; [exact E|]. split; [exact Hc|].
    split; [|exact Hcase].
    intros a Ha. rewrite (Ho a Ha). subst w0. cbn.
    now rewrite fn_lookup_insert_ne by congruence.
  - destruct (ctor_start_spec w this) as (o & w' & E & Hc & _ & _ & Ho & Hcase).
    exists o, w'. split; [exact E|]. split; [exact Hc|]. split; [exact Ho|].
    destruct (env_spawn (env w) (now w)) as [[hp t]|].
    + left. tauto.
    + destruct Hcase as (-> & H1 & H2 & _). eauto.
Qed.

Section Closing.
Variables (w w' : World) (this : addr).

Lemma join_returned_closes :
  Thread.join this w = (Returned tt, w') ->
  Thread.joinable w this = true /\
  objs w' = <[this := nullptr]> (objs w) /\
  handles w' = delete (objs w this) (handles w) /\ cur w' = cur w.
Proof.
  destruct (Thread.joinable w this) eqn:J.
  - rewrite (join_joinable _ _ J).
    destruct (_join_spec this INFINITE w) as (o & w1 & -> & Hc & _ & Hcase).
    destruct Hcase as [(-> & _ & Ho & Hh & _)|[(-> & _ & Hne & _)|[(-> & _)|(-> & _)]]];
      try discriminate.
    + intros [= <-]. auto.
    + now destruct Hne.
  - rewrite (join_not_joinable _ _ J). discriminate.
Qed.

Lemma join_ms_true_closes ms :
  Thread.join_ms this ms w = (Returned true, w') ->
  Thread.joinable w this = true /\
  objs w' = <[this := nullptr]> (objs w) /\
  handles w' = delete (objs w this) (handles w) /\ cur w' = cur w.
Proof.
  destruct (Thread.joinable w this) eqn:J.
  - rewrite (join_ms_joinable _ _ ms J).
    destruct (_join_spec this ms w) as (o & w1 & -> & Hc & _ & Hcase).
    destruct Hcase as [(-> & _ & Ho & Hh & _)|[(-> & _)|[(-> & _)|(-> & _)]]];
      try discriminate.
    intros [= <-]. auto.
  - rewrite (join_ms_not_joinable _ _ ms J). discriminate.
Qed.

Lemma detach_returned_closes :
  Thread.detach this w = (Returned tt, w') ->
  Thread.joinable w this = true /\
  is_Some (handles w !! objs w this) /\
  objs w' = <[this := nullptr]> (objs w) /\
  handles w' = delete (objs w this) (handles w) /\
  threads w' = threads w /\ cur w' = cur w /\
  trace w' = trace w ++ [Call_CloseHandle (objs w this)].
Proof.
  destruct (Thread.joinable w this) eqn:J.
  - rewrite (detach_joinable _ _ J). unfold _detach, bind, load, gets.
    destruct (CloseHandle_spec (objs w this) w)
      as (ok & w1 & -> & (Ho & Hc & He & Ht) & Hth & Hh & Hok).
    destruct (ok =? 0) eqn:E.
    + unfold Win32.GetLastError, gets, throw. discriminate.
    + unfold store, modify. intros [= <-]. cbn. rewrite Ho.
      apply Z.eqb_neq in E.
      repeat split; auto.
      destruct (handles w !! objs w this) eqn:E'; [eauto | destruct E; now apply Hok].
  - rewrite (detach_not_joinable _ _ J). discriminate.
Qed.

End Closing.

Lemma get_id_open w this t :
  objs w this <> nullptr -> handles w !! objs w this = Some t ->
  Thread.get_id w this = mk_id t /\
  (forall u, Thread.joinable (as_thread u w) this = true <-> t <> u).
Proof.
  intros Hl Hh.
  assert (G : forall u, Thread.get_id (as_thread u w) this = mk_id t).
  { intros u. unfold Thread.get_id, _thread_id, Win32.GetThreadId. cbn.
    destruct (objs w this =? nullptr) eqn:E; [apply Z.eqb_eq in E; contradiction|].
    cbn. now rewrite Hh. }
  split.
  - unfold Thread.get_id, _thread_id, Win32.GetThreadId.
    destruct (objs w this =? nullptr) eqn:E; [apply Z.eqb_eq in E; contradiction|].
    cbn. now rewrite Hh.
  - intros u. unfold Thread.joinable. rewrite G.
    unfold id_ne, this_thread.get_id, id_current, Win32.GetCurrentThreadId. cbn.
    rewrite negb_true_iff, Z.eqb_neq. reflexivity.
Qed.

(** X4.  The constructor without options issues one call,
    [_beginthreadex] with no flag, and nothing else.  When that succeeds
    the handle is LIVE, its id is the new thread's, and the thread is
    running (not suspended) at normal priority; when it fails the
    constructor throws the OS error of [errno] and the handle is EMPTY,
    with the table of open references and the threads as before. *)
Theorem ctor_without_options (w : World) (this : addr) :
  exists o w',
    Thread.ctor_start this w = (o, w') /\
    trace w' = trace w ++ [Call_beginthreadex 0] /\
    match env_spawn (env w) (now w) with
    | None =>
        o = Thrown (os_error (env_errno (env w) (now w))) /\
        EMPTY w' this /\ Thread.joinable w' this = false /\
        handles w' = handles w /\ threads w' = threads w
    | Some (hp, t) =>
        o = Returned tt /\ objs w' this = Z.pos hp /\
        handles w' !! Z.pos hp = Some t /\
        Thread.get_id w' this = mk_id t /\
        threads w' !! t = Some (mk_KThread THREAD_PRIORITY_NORMAL false false)
    end.
Proof.
  destruct (ctor_start_spec w this) as (o & w' & E & _ & _ & Ht & _ & Hcase).
  exists o, w'. split; [exact E|]. split; [exact Ht|].
  destruct (env_spawn (env w) (now w)) as [[hp t]|].
  - destruct Hcase as (-> & Ho & Hh & Hth).
    assert (L : handles w' !! objs w' this = Some t)
      by (rewrite Ho, Hh; apply lookup_insert_eq).
    assert (N : objs w' this <> nullptr) by (rewrite Ho; discriminate).
    split; [reflexivity|]. split; [exact Ho|].
    split; [rewrite <- Ho; exact L|].
    split; [apply (get_id_open w' this t N L)|].
    rewrite Hth. apply lookup_insert_eq.
  - destruct Hcase as (-> & Ho & Hh & Hth).
    split; [reflexivity|]. split; [exact Ho|].
    split; [now apply joinable_EMPTY | auto].
Qed.

(** X5.  After either payload constructor has returned, [get_id()] is the
    id the system gave the new thread, and [joinable()] holds from exactly
    the threads with another id: from the creating thread whenever the new
    id differs from its own, never from the new thread itself. *)
Theorem started_handle_identity
    (w : World) (this : addr) (opt : Options) (w' : World) :
  Thread.ctor_start_opt this opt w = (Returned tt, w') ->
  exists hp t,
    env_spawn (env w) (now w) = Some (hp, t) /\
    objs w' this = Z.pos hp /\
    Thread.get_id w' this = mk_id t /\
    (Thread.joinable w' this = true <-> t <> cur w) /\
    (forall u, Thread.joinable (as_thread u w') this = true <-> t <> u).
Proof.
  intros H.
  destruct (payload_ctor_footprint w this opt) as (o & w1 & E & Hc & _ & Hcase).
  rewrite H in E. injection E as <- <-.
  destruct (env_spawn (env w) (now w)) as [[hp t]|].
  - exists hp, t. split; [reflexivity|].
    destruct Hcase as [(_ & Ho & Hh)|((e & He) & _)]; [|discriminate].
    assert (L : handles w' !! objs w' this = Some t)
      by (rewrite Ho, Hh; apply lookup_insert_eq).
    assert (N : objs w' this <> nullptr) by (rewrite Ho; discriminate).
    destruct (get_id_open w' this t N L) as [G J].
    split; [exact Ho|]. split; [exact G|]. split; [|exact J].
    rewrite <- Hc. rewrite <- (J (cur w')). destruct w'; reflexivity.
  - destruct Hcase as ((e & He) & _). discriminate.
Qed.

Lemma started_handle_identity_witness :
  Thread.get_id (world_started env_ok) 0%nat = mk_id 200 /\
  Thread.joinable (world_started env_ok) 0%nat = true /\
  Thread.joinable world_inside 0%nat = false.
Proof.
  destruct (started_handle_identity (world_init env_ok)
              0%nat (mk_Options None) (world_started env_ok) eq_refl)
    as (hp & t & E & _ & G & J & Ju).
  vm_compute in E. injection E as <- <-.
  split; [exact G|]. split; [apply J; vm_compute; discriminate|].
  destruct (Thread.joinable world_inside 0%nat) eqn:X; [|reflexivity].
  apply (Ju 200) in X. now destruct X.
Defined.

(** X6.  A payload constructor that throws leaks nothing: the error is an
    OS error, the handle is EMPTY, other handles are as before and, the
    system having handed out a handle that was not already open, the table
    of open references is exactly what it was. *)
Theorem failed_ctor_leaks_nothing
    (w : World) (this : addr) (opt : Options) (e : system_error) (w' : World) :
  fresh_next w ->
  Thread.ctor_start_opt this opt w = (Thrown e, w') ->
  is_os_error e = true /\
  EMPTY w' this /\
  handles w' = handles w /\
  (forall a, a <> this -> objs w' a = objs w a).
Proof.
  unfold fresh_next. intros F H.
  destruct (payload_ctor_footprint w this opt) as (o & w1 & E & _ & Hoth & Hcase).
  rewrite H in E. injection E as <- <-.
  destruct (env_spawn (env w) (now w)) as [[hp t]|].
  - destruct Hcase as [(X & _)|((e' & He) & Ho & Hh)]; [discriminate|].
    injection He as ->. split; [reflexivity|]. split; [exact Ho|].
    split; [|exact Hoth]. rewrite Hh. now apply delete_insert_id.
  - destruct Hcase as ((e' & He) & Ho & Hh). injection He as ->. auto.
Qed.

Lemma failed_ctor_leaks_nothing_witness :
  exists e w',
    Thread.ctor_start_opt 1%nat (mk_Options (Some HIGH)) (world_started env_no_priority)
      = (Thrown e, w') /\
    handles w' = handles (world_started env_no_priority) /\ EMPTY w' 1%nat.
Proof.
  destruct (Thread.ctor_start_opt 1%nat (mk_Options (Some HIGH))
              (world_started env_no_priority)) as [o w'] eqn:E.
  assert (O : o = Thrown (os_error 5)).
  { pose proof (f_equal fst E) as X. vm_compute in X. rewrite <- X. reflexivity. }
  subst o. exists (os_error 5), w'. split; [reflexivity|].
  destruct (failed_ctor_leaks_nothing (world_started env_no_priority) 1%nat
              (mk_Options (Some HIGH)) (os_error 5) w') as (_ & Em & Hh & _).
  - vm_compute. reflexivity.
  - exact E.
  - auto.
Defined.

(** X7.  Starting a thread and then releasing it by a [join()] that
    returns, a [join(ms)] that returns true or a [detach()] that returns
    restores the table of open references and leaves the handle EMPTY. *)
Theorem start_then_release_restores
    (w : World) (this : addr) (opt : Options) (ms : Z) (w1 w2 : World) :
  fresh_next w ->
  Thread.ctor_start_opt this opt w = (Returned tt, w1) ->
  Thread.join this w1 = (Returned tt, w2)
  \/ Thread.join_ms this ms w1 = (Returned true, w2)
  \/ Thread.detach this w1 = (Returned tt, w2) ->
  handles w2 = handles w /\
  EMPTY w2 this /\
  (forall a, a <> this -> objs w2 a = objs w a).
Proof.
  unfold fresh_next. intros F H R.
  destruct (payload_ctor_footprint w this opt) as (o & w' & E & _ & Hoth & Hcase).
  rewrite H in E. injection E as <- <-.
  destruct (env_spawn (env w) (now w)) as [[hp t]|];
    [|destruct Hcase as ((e & He) & _); discriminate].
  destruct Hcase as [(_ & Ho & Hh)|((e & He) & _)]; [|discriminate].
  assert (C : objs w2 = <[this := nullptr]> (objs w1) /\
              handles w2 = delete (objs w1 this) (handles w1)).
  { destruct R as [R|[R|R]].
    - apply join_returned_closes in R. tauto.
    - apply join_ms_true_closes in R. tauto.
    - apply detach_returned_closes in R. tauto. }
  destruct C as [Co Ch].
  split; [rewrite Ch, Ho, Hh; now apply delete_insert_id|].
  split; [unfold EMPTY; rewrite Co; apply fn_lookup_insert|].
  intros a Ha. rewrite Co, fn_lookup_insert_ne by congruence. auto.
Qed.

Lemma start_then_release_restores_witness :
  handles (snd (Thread.join 0%nat (world_started env_ok))) = ∅ /\
  handles (snd (Thread.detach 1%nat (world_two env_ok))) = handles (world_started env_ok).
Proof.
  split.
  - apply (start_then_release_restores (world_init env_ok) 0%nat (mk_Options None) 0
             (world_started env_ok) (snd (Thread.join 0%nat (world_started env_ok)))).
    + vm_compute. reflexivity.
    + reflexivity.
    + left. vm_compute. reflexivity.
  - apply (start_then_release_restores (world_started env_ok) 1%nat (mk_Options None) 0
             (world_two env_ok) (snd (Thread.detach 1%nat (world_two env_ok)))).
    + vm_compute. reflexivity.
    + reflexivity.
    + right. right. vm_compute. reflexivity.
Defined.

(** X8.  [detach()] on a joinable handle whose reference is open returns
    after one call, [CloseHandle]: it does not wait and does not touch the
    thread.  The handle is then EMPTY, and a further [detach()] or
    [join()] throws the invalid-argument error. *)
Theorem detach_releases_without_waiting (w : World) (this : addr) :
  Thread.joinable w this = true ->
  is_Some (handles w !! objs w this) ->
  exists w',
    Thread.detach this w = (Returned tt, w') /\
    trace w' = trace w ++ [Call_CloseHandle (objs w this)] /\
    threads w' = threads w /\
    handles w' = delete (objs w this) (handles w) /\
    EMPTY w' this /\
    Thread.joinable w' this = false /\
    (exists e, Thread.detach this w' = (Thrown e, w') /\
               is_invalid_operation e = true) /\
    (exists e, Thread.join this w' = (Thrown e, w') /\
               is_invalid_operation e = true).
Proof.
  intros J [t Ht].
  destruct (Thread.detach this w) as [o w'] eqn:E.
  assert (O : o = Returned tt).
  { rewrite (detach_joinable _ _ J) in E.
    destruct (_detach_spec this w) as (o1 & w1 & E1 & _ & _ & _ & Hcase).
    rewrite E in E1. injection E1 as <- <-.
    destruct Hcase as [(-> & _)|(_ & Hn & _)]; [reflexivity | congruence]. }
  subst o. exists w'. split; [reflexivity|].
  destruct (detach_returned_closes _ _ _ E) as (_ & _ & Ho & Hh & Hth & _ & Htr).
  assert (Em : EMPTY w' this) by (unfold EMPTY; rewrite Ho; apply fn_lookup_insert).
  pose proof (joinable_EMPTY _ _ Em) as J'.
  do 5 (split; [assumption|]).
  split; eexists.
  - rewrite (detach_not_joinable _ _ J'). split; reflexivity.
  - rewrite (join_not_joinable _ _ J'). split; reflexivity.
Qed.

Lemma detach_releases_without_waiting_witness :
  exists w',
    Thread.detach 0%nat (world_started env_busy) = (Returned tt, w') /\
    trace w' = [Call_beginthreadex 0; Call_CloseHandle 8] /\
    threads w' = threads (world_started env_busy).
Proof.
  destruct (detach_releases_without_waiting (world_started env_busy) 0%nat eq_refl)
    as (w' & H & Ht & Hth & _).
  - vm_compute. eauto.
  - exists w'. auto.
Defined.

(** X9.  When the native reference was closed behind the handle's back
    (the danger [native_handle()] is documented with), [join()],
    [join(ms)] and [detach()] throw the OS error ERROR_INVALID_HANDLE and
    the handle keeps its reference. *)
Theorem stale_reference_is_reported (w : World) (this : addr) (ms : Z) :
  Thread.joinable w this = true ->
  handles w !! objs w this = None ->
  exists w1 w2 w3,
    Thread.join this w = (Thrown (os_error ERROR_INVALID_HANDLE), w1) /\
    Thread.join_ms this ms w = (Thrown (os_error ERROR_INVALID_HANDLE), w2) /\
    Thread.detach this w = (Thrown (os_error ERROR_INVALID_HANDLE), w3) /\
    objs w1 = objs w /\ objs w2 = objs w /\ objs w3 = objs w /\
    handles w1 = handles w /\ handles w2 = handles w /\ handles w3 = handles w.
Proof.
  intros J H.
  do 3 eexists.
  rewrite (join_joinable _ _ J), (join_ms_joinable _ _ ms J), (detach_joinable _ _ J).
  unfold _join, _detach, bind, load, gets, throw,
    Win32.WaitForSingleObject, Win32.CloseHandle, Win32.GetLastError.
  rewrite H. cbn.
  repeat split; reflexivity.
Qed.

Lemma stale_reference_is_reported_witness :
  LIVE world_stale 0%nat /\
  exists w1,
    Thread.join 0%nat world_stale = (Thrown (os_error ERROR_INVALID_HANDLE), w1) /\
    objs w1 = objs world_stale.
Proof.
  split; [vm_compute; discriminate|].
  destruct (stale_reference_is_reported world_stale 0%nat 0 eq_refl eq_refl)
    as (w1 & _ & _ & H & _ & _ & Ho & _).
  exists w1. auto.
Defined.

Lemma _force_join_spec this w :
  let h := objs w this in
  let verdict := fst (Win32.WaitForSingleObject h INFINITE w) in
  exists o w', _force_join this w = (o, w') /\ cur w' = cur w /\
    (o = Returned tt /\ (exists r, verdict = Returned r) /\
       objs w' = <[this := nullptr]> (objs w) /\
       handles w' = delete h (handles w) /\
       trace w' = trace w ++ [Call_WaitForSingleObject h INFINITE; Call_CloseHandle h]
     \/ o = Hangs /\ verdict = Hangs /\
       objs w' = objs w /\ handles w' = handles w /\ threads w' = threads w /\
       trace w' = trace w ++ [Call_WaitForSingleObject h INFINITE]).
Proof.
  intros h verdict. subst verdict.
  unfold _force_join, bind, load, gets. fold h.
  destruct (WaitForSingleObject_spec h INFINITE w)
    as (o & w1 & HW & (Ho & Hc & He & Ht) & Hh & Hcase).
  rewrite HW. simpl fst.
  assert (R : forall r, o = Returned r ->
    exists w',
      match o with
      | Returned _ =>
          let (o0, w'0) := Win32.CloseHandle (objs w1 this) w1 in
          match o0 with
          | Returned _ => store this nullptr w'0
          | Thrown e => (Thrown e, w'0)
          | Hangs => (Hangs, w'0)
          end
      | Thrown e => (Thrown e, w1)
      | Hangs => (Hangs, w1)
      end = (Returned tt, w') /\ cur w' = cur w /\
      objs w' = <[this := nullptr]> (objs w) /\
      handles w' = delete h (handles w) /\
      trace w' = trace w ++ [Call_WaitForSingleObject h INFINITE; Call_CloseHandle h]).
  { intros r ->. rewrite Ho. fold h.
    destruct (CloseHandle_spec h w1)
      as (ok & w2 & -> & (Ho2 & Hc2 & He2 & Ht2) & _ & Hh2 & _).
    unfold store, modify. eexists. split; [reflexivity|]. cbn.
    rewrite Hc2, Hc, Ho2, Ho, Hh2, Hh, Ht2, Ht, <- app_assoc. auto. }
  destruct Hcase as [[Hr _]|[(Hr & _)|[(Hr & _)|(-> & Hinf & Hth)]]];
    try (destruct (R _ Hr) as (w' & E & Hc' & Hrest);
         exists (Returned tt), w'; split; [exact E|]; split; [exact Hc'|];
         left; split; [reflexivity|]; split; [rewrite Hr; eauto | exact Hrest]).
  do 2 eexists. split; [reflexivity|]. split; [exact Hc|]. right. auto 10.
Qed.

(** X10.  The destructor never throws.  On a handle that is not joinable
    (EMPTY, or LIVE and destroyed by its own thread) it does nothing at
    all, so a reference held then stays open.  On a joinable handle it
    waits without bound and, whatever the wait answered (a failure
    included), closes the reference and leaves the handle EMPTY; or the
    wait never returns and nothing has changed. *)
Theorem destructor_never_throws (w : World) (this : addr) :
  let h := objs w this in
  exists o w',
    Thread.dtor this w = (o, w') /\
    (Thread.joinable w this = false -> o = Returned tt /\ w' = w) /\
    (Thread.joinable w this = true ->
     o = Returned tt /\
       (exists r, fst (Win32.WaitForSingleObject h INFINITE w) = Returned r) /\
       EMPTY w' this /\ handles w' = delete h (handles w) /\
       trace w' = trace w ++ [Call_WaitForSingleObject h INFINITE; Call_CloseHandle h]
     \/ o = Hangs /\ objs w' = objs w /\ handles w' = handles w /\
       trace w' = trace w ++ [Call_WaitForSingleObject h INFINITE]).
Proof.
  intros h. unfold Thread.dtor, bind, gets, ret.
  destruct (Thread.joinable w this) eqn:J.
  - destruct (_force_join_spec this w) as (o & w' & E & _ & Hcase). fold h in Hcase.
    exists o, w'. split; [exact E|]. split; [discriminate|]. intros _.
    destruct Hcase as [(-> & Hr & Ho & Hh & Ht)|(-> & _ & Ho & Hh & _ & Ht)].
    + left. split; [reflexivity|]. split; [exact Hr|].
      split; [unfold EMPTY; rewrite Ho; apply fn_lookup_insert | auto].
    + right. auto.
  - do 2 eexists. split; [reflexivity|]. split; [auto | discriminate].
Qed.

Lemma destructor_never_throws_witness :
  Thread.dtor 0%nat world_inside = (Returned tt, world_inside) /\
  (exists w', Thread.dtor 0%nat (world_started env_wait_fails) = (Returned tt, w') /\
              EMPTY w' 0%nat /\ handles w' = ∅).
Proof.
  split.
  - destruct (destructor_never_throws world_inside 0%nat) as (o & w' & E & H & _).
    destruct (H eq_refl) as [-> ->]. exact E.
  - destruct (destructor_never_throws (world_started env_wait_fails) 0%nat)
      as (o & w' & E & _ & H).
    destruct (H eq_refl) as [(-> & _ & Em & Hh & _)|(-> & _)].
    + exists w'. split; [exact E|]. split; [exact Em|]. rewrite Hh. vm_compute. reflexivity.
    + pose proof (f_equal fst E) as X. vm_compute in X. discriminate X.
Defined.

(** X11.  Swapping twice restores every handle, and [x.swap(y)] leaves the
    handles as [y.swap(x)] does; neither touches the system. *)
Theorem swap_twice_restores (w : World) (x y : addr) :
  let w1 := snd (Thread.swap x y w) in
  let w2 := snd (Thread.swap x y w1) in
  (forall a, objs w2 a = objs w a) /\
  (forall a, objs (snd (Thread.swap y x w)) a = objs w1 a) /\
  handles w2 = handles w /\ threads w2 = threads w /\ trace w2 = trace w.
Proof.
  cbn. split; [intros a | split; [intros a | auto]];
    destruct (decide (a = x)) as [Hx|Hx], (decide (a = y)) as [Hy|Hy];
    try subst x; try subst y;
    repeat first [rewrite fn_lookup_insert
                 | rewrite fn_lookup_insert_ne by congruence];
    reflexivity.
Qed.

(** X12.  Moving a handle out into a new object and move-assigning it
    back restores the original handle with its id, leaves the other object
    EMPTY and makes no system call. *)
Theorem move_out_and_back (w : World) (this other : addr) :
  this <> other ->
  exists w',
    (run Thread.move_ctor this other; Thread.move_assign other this) w
      = (Returned tt, w') /\
    objs w' other = objs w other /\
    EMPTY w' this /\
    (forall a, a <> this -> objs w' a = objs w a) /\
    Thread.get_id w' other = Thread.get_id w other /\
    handles w' = handles w /\ threads w' = threads w /\ trace w' = trace w.
Proof.
  intros Hne.
  unfold bind at 1. unfold Thread.move_ctor, Thread.ctor, bind, store, modify.
  rewrite swap_handles_eq.
  set (w1 := set_objs _ (set_objs _ w)).
  assert (E1 : EMPTY w1 other).
  { subst w1. unfold EMPTY. cbn. rewrite fn_lookup_insert.
    apply fn_lookup_insert. }
  assert (T1 : objs w1 this = objs w other).
  { subst w1. cbn. rewrite fn_lookup_insert_ne by congruence.
    rewrite fn_lookup_insert. now rewrite fn_lookup_insert_ne by congruence. }
  assert (O1 : forall a, a <> this -> a <> other -> objs w1 a = objs w a).
  { intros a H1 H2. subst w1. cbn. now rewrite !fn_lookup_insert_ne by congruence. }
  assert (F1 : handles w1 = handles w /\ threads w1 = threads w /\ trace w1 = trace w)
    by (subst w1; cbn; auto).
  assert (C1 : cur w1 = cur w) by (subst w1; reflexivity).
  clearbody w1. destruct F1 as (Fh & Fth & Ftr).
  unfold Thread.move_assign, bind, gets, ret.
  rewrite (joinable_EMPTY _ _ E1), swap_handles_eq.
  eexists. split; [reflexivity|].
  assert (A : objs (set_objs (<[this:=objs w1 other]> (<[other:=objs w1 this]> (objs w1))) w1)
              other = objs w other).
  { cbn. rewrite fn_lookup_insert_ne by congruence. now rewrite fn_lookup_insert. }
  split; [exact A|].
  split; [unfold EMPTY; cbn; rewrite fn_lookup_insert; exact E1|].
  split.
  { intros a Ha. destruct (decide (a = other)) as [->|Ho]; [exact A|].
    cbn. rewrite !fn_lookup_insert_ne by congruence. now apply O1. }
  split; [now apply get_id_same_handle | cbn; auto].
Qed.

Lemma move_out_and_back_witness :
  exists w',
    (run Thread.move_ctor 2%nat 0%nat; Thread.move_assign 0%nat 2%nat) (world_two env_ok)
      = (Returned tt, w') /\
    objs w' 0%nat = 8 /\ EMPTY w' 2%nat /\ objs w' 1%nat = 12.
Proof.
  destruct (move_out_and_back (world_two env_ok) 2%nat 0%nat ltac:(lia))
    as (w' & H & Ho & Em & Hoth & _).
  exists w'. split; [exact H|]. split; [exact Ho|]. split; [exact Em|].
  apply (Hoth 1%nat). lia.
Defined.

(** X13.  Move assignment of a handle to itself: when the handle is not
    joinable nothing changes; when it is joinable the thread is joined and
    the handle ends EMPTY, its reference closed. *)
Theorem move_assign_to_itself (w : World) (this : addr) :
  (Thread.joinable w this = false ->
   exists w',
     Thread.move_assign this this w = (Returned tt, w') /\
     (forall a, objs w' a = objs w a) /\
     handles w' = handles w /\ trace w' = trace w) /\
  (Thread.joinable w this = true ->
   forall w1,
     Thread.join this w = (Returned tt, w1) ->
     exists w',
       Thread.move_assign this this w = (Returned tt, w') /\
       EMPTY w' this /\
       handles w' = delete (objs w this) (handles w) /\
       trace w' = trace w ++ [Call_WaitForSingleObject (objs w this) INFINITE;
                              Call_CloseHandle (objs w this)]).
Proof.
  split; intros J.
  - unfold Thread.move_assign, bind, gets, ret. rewrite J, swap_handles_eq.
    eexists. split; [reflexivity|]. split; [|auto].
    intros a. cbn. destruct (decide (a = this)) as [->|Ha].
    + now rewrite fn_lookup_insert.
    + now rewrite !fn_lookup_insert_ne by congruence.
  - intros w1 H. unfold Thread.move_assign, bind, gets. rewrite J, H, swap_handles_eq.
    destruct (join_returned_closes _ _ _ H) as (_ & Ho & Hh & _).
    destruct (join_returned_EMPTY _ _ _ H) as (Em & _ & Ht).
    eexists. split; [reflexivity|]. cbn.
    split; [unfold EMPTY; cbn; rewrite fn_lookup_insert; exact Em | auto].
Qed.

Lemma move_assign_to_itself_witness :
  (exists w', Thread.move_assign 0%nat 0%nat world_inside = (Returned tt, w') /\
              objs w' 0%nat = 8) /\
  (exists w', Thread.move_assign 0%nat 0%nat (world_started env_ok) = (Returned tt, w') /\
              EMPTY w' 0%nat).
Proof.
  split.
  - destruct (move_assign_to_itself world_inside 0%nat) as [H _].
    destruct (H eq_refl) as (w' & E & Ho & _). exists w'. split; [exact E|].
    rewrite Ho. reflexivity.
  - destruct (move_assign_to_itself (world_started env_ok) 0%nat) as [_ H].
    destruct (H eq_refl (snd (Thread.join 0%nat (world_started env_ok))))
      as (w' & E & Em & _).
    + vm_compute. reflexivity.
    + exists w'. auto.
Defined.

(** X14.  Move assignment onto a destination that is not joinable is a
    swap without any system call: the source receives whatever reference
    the destination held. *)
Theorem move_assign_onto_not_joinable (w : World) (this other : addr) :
  Thread.joinable w this = false ->
  exists w',
    Thread.move_assign this other w = (Returned tt, w') /\
    Thread.swap this other w = (Returned tt, w') /\
    objs w' other = objs w this /\
    (this <> other -> objs w' this = objs w other) /\
    handles w' = handles w /\ threads w' = threads w /\ trace w' = trace w.
Proof.
  intros J. unfold Thread.move_assign, Thread.swap, bind, gets, ret.
  rewrite J, swap_handles_eq. eexists. do 2 (split; [reflexivity|]). cbn.
  split; [apply fn_lookup_insert|]. split; [|auto].
  intros Hne. rewrite fn_lookup_insert_ne by congruence. apply fn_lookup_insert.
Qed.

Lemma move_assign_onto_not_joinable_witness :
  exists w',
    Thread.move_assign 0%nat 1%nat world_two_inside = (Returned tt, w') /\
    objs w' 1%nat = 8 /\ objs w' 0%nat = 12 /\ handles w' = handles world_two_inside.
Proof.
  destruct (move_assign_onto_not_joinable world_two_inside 0%nat 1%nat eq_refl)
    as (w' & E & _ & Ho & Ht & Hh & _).
  exists w'. split; [exact E|]. split; [exact Ho|]. split; [apply Ht; lia | exact Hh].
Defined.

(** X15.  The timeout of [join(ms)] reaches the wait as a DWORD: timeouts
    that differ by a multiple of 2^32 behave alike, and one that converts
    to INFINITE (4294967295) makes an unbounded wait, which never returns
    false. *)
Theorem join_ms_timeout_is_a_DWORD (w : World) (this : addr) (ms : Z) :
  Thread.join_ms this (ms + 2 ^ 32) w = Thread.join_ms this ms w /\
  (forall b w',
     to_DWORD ms = INFINITE ->
     Thread.join_ms this ms w = (Returned b, w') -> b = true).
Proof.
  split.
  - assert (E : to_DWORD (ms + 2 ^ 32) = to_DWORD ms).
    { unfold to_DWORD. rewrite <- (Z_mod_plus_full ms 1 (2 ^ 32)). reflexivity. }
    unfold Thread.join_ms, _join. now rewrite E.
  - intros b w' Hinf H.
    destruct (Thread.joinable w this) eqn:J.
    + rewrite (join_ms_joinable _ _ ms J) in H.
      destruct (_join_spec this ms w) as (o & w1 & E & _ & _ & Hcase).
      rewrite H in E. injection E as <- <-.
      destruct Hcase as [(X & _)|[(_ & _ & Hne & _)|[(X & _)|(X & _)]]];
        try discriminate X; [congruence | contradiction].
    + rewrite (join_ms_not_joinable _ _ ms J) in H. discriminate.
Qed.

Lemma join_ms_timeout_is_a_DWORD_witness :
  exists w',
    Thread.join_ms 0%nat (4294967295 + 2 ^ 32) (world_started env_ok)
    = (Returned true, w').
Proof.
  destruct (join_ms_timeout_is_a_DWORD (world_started env_ok) 0%nat 4294967295)
    as [E H].
  rewrite E.
  destruct (Thread.join_ms 0%nat 4294967295 (world_started env_ok))
    as [[b| |] w'] eqn:J.
  - exists w'. now rewrite (H b w' eq_refl eq_refl).
  - pose proof (f_equal fst J) as X. vm_compute in X. discriminate X.
  - pose proof (f_equal fst J) as X. vm_compute in X. discriminate X.
Defined.

Lemma wait_verdict_running h ms w t :
  handles w !! h = Some t -> running w t ->
  env_wait (env w) (now w) = StillRunning -> ms <> INFINITE ->
  fst (Win32.WaitForSingleObject h ms w) = Returned WAIT_TIMEOUT.
Proof.
  unfold running, Win32.WaitForSingleObject. intros -> -> -> H.
  apply Z.eqb_neq in H. now rewrite H.
Qed.

Lemma wait_verdict_signals h ms w t :
  handles w !! h = Some t ->
  env_wait (env w) (now w) = Signals ->
  fst (Win32.WaitForSingleObject h ms w) = Returned WAIT_OBJECT_0.
Proof.
  unfold Win32.WaitForSingleObject. intros -> ->.
  now destruct (match threads w !! t with Some k => k_exited k | None => false end).
Qed.

Lemma wait_loop_terminates this ms t :
  to_DWORD ms <> INFINITE ->
  forall k fuel w,
    (k < fuel)%nat ->
    Thread.joinable w this = true ->
    handles w !! objs w this = Some t ->
    running w t ->
    (forall i, (i < k)%nat -> env_wait (env w) (now w + i) = StillRunning) ->
    env_wait (env w) (now w + k) = Signals ->
    exists w',
      wait_loop fuel this ms w = (Returned (Some k), w') /\
      EMPTY w' this /\
      handles w' = delete (objs w this) (handles w) /\
      trace w' = trace w
                 ++ repeat (Call_WaitForSingleObject (objs w this) (to_DWORD ms)) (S k)
                 ++ [Call_CloseHandle (objs w this)].
Proof.
  intros Hms. induction k as [|k IH]; intros fuel w Hf J Hh Hr Hbusy Hsig;
    (destruct fuel as [|fuel]; [lia|]); cbn [wait_loop]; unfold bind at 1;
    rewrite (join_ms_joinable _ _ ms J);
    destruct (_join_spec this ms w) as (o & w1 & -> & Hc & He & Hcase).
  - rewrite Nat.add_0_r in Hsig.
    rewrite (wait_verdict_signals _ (to_DWORD ms) _ _ Hh Hsig) in Hcase.
    destruct Hcase as [(-> & _ & Ho & Hh1 & Ht)|[(_ & X & _)|[(_ & X & _)|(_ & X & _)]]];
      try (vm_compute in X; discriminate X).
    cbn. unfold ret. eexists. split; [reflexivity|].
    split; [unfold EMPTY; rewrite Ho; apply fn_lookup_insert | auto].
  - assert (B0 : env_wait (env w) (now w) = StillRunning).
    { rewrite <- (Nat.add_0_r (now w)). apply Hbusy. lia. }
    rewrite (wait_verdict_running _ (to_DWORD ms) _ _ Hh Hr B0 Hms) in Hcase.
    destruct Hcase as [(_ & X & _)|[(-> & _ & _ & Ho & Hh1 & Hth & Ht)
                      |[(_ & X & _)|(_ & X & _)]]];
      try (vm_compute in X; discriminate X).
    cbn [negb]. cbv iota.
    assert (N1 : now w1 = S (now w)).
    { unfold now. rewrite Ht, length_app. cbn. lia. }
    destruct (get_id_frame w w1 this Ho Hh1 Hc) as [_ Hj].
    destruct (IH fuel w1) as (w' & E & Em & Hh' & Ht').
    + lia.
    + congruence.
    + now rewrite Ho, Hh1.
    + unfold running. now rewrite Hth.
    + intros i Hi. rewrite He, N1.
      replace (S (now w) + i)%nat with (now w + S i)%nat by lia. apply Hbusy. lia.
    + rewrite He, N1.
      replace (S (now w) + k)%nat with (now w + S k)%nat by lia. exact Hsig.
    + unfold bind. rewrite E. unfold ret. cbn [option_map].
      eexists. split; [reflexivity|]. split; [exact Em|].
      rewrite Hh', Ht', Ho, Hh1, Ht. split; [reflexivity|].
      rewrite <- app_assoc. reflexivity.
Qed.

(** X16.  The loop [while (!t.join(100)) ...] of the example: when the
    thread is still running at the next [k] waits and has terminated at
    the one after, the loop runs its body [k] times and ends with the
    handle EMPTY and its reference closed, after [k+1] waits and one
    close. *)
Theorem wait_loop_joins_after_timeouts
    (w : World) (this : addr) (t : Z) (k fuel : nat) :
  (k < fuel)%nat ->
  Thread.joinable w this = true ->
  handles w !! objs w this = Some t ->
  running w t ->
  (forall i, (i < k)%nat -> env_wait (env w) (now w + i) = StillRunning) ->
  env_wait (env w) (now w + k) = Signals ->
  exists w',
    wait_loop fuel this 100 w = (Returned (Some k), w') /\
    EMPTY w' this /\
    handles w' = delete (objs w this) (handles w) /\
    trace w' = trace w
               ++ repeat (Call_WaitForSingleObject (objs w this) 100) (S k)
               ++ [Call_CloseHandle (objs w this)].
Proof.
  intros. apply (wait_loop_terminates this 100 t); auto; discriminate.
Qed.

Lemma wait_loop_joins_after_timeouts_witness :
  exists w',
    wait_loop 10 0%nat 100
      (snd (Thread.ctor_start_opt 0%nat (mk_Options (Some LOWEST)) (world_init env_third)))
    = (Returned (Some 2%nat), w') /\ EMPTY w' 0%nat.
Proof.
  destruct (wait_loop_joins_after_timeouts
              (snd (Thread.ctor_start_opt 0%nat (mk_Options (Some LOWEST))
                      (world_init env_third))) 0%nat 200 2 10)
    as (w' & E & Em & _).
  - lia.
  - vm_compute. reflexivity.
  - vm_compute. reflexivity.
  - vm_compute. reflexivity.
  - intros i Hi. destruct i as [|[|i]]; [reflexivity | reflexivity | lia].
  - reflexivity.
  - exists w'. auto.
Defined.

Section Ownership.
Variables (w w' : World) (this : addr).
Hypothesis (X : exclusive w) (O : held_open w).

Lemma ownership_untouched :
  untouched w w' -> exclusive w' /\ held_open w'.
Proof.
  intros [Ho Hh]. unfold exclusive, held_open. rewrite Ho, Hh. auto.
Qed.

Lemma ownership_cleared :
  (forall a, a <> this -> objs w' a = objs w a) ->
  objs w' this = nullptr ->
  (forall a, a <> this -> objs w a <> nullptr ->
             handles w' !! objs w a = handles w !! objs w a) ->
  exclusive w' /\ held_open w'.
Proof.
  intros Hoth Hthis Hh. split.
  - intros a b Hab Ha.
    assert (Hat : a <> this) by (intros ->; contradiction).
    rewrite (Hoth a Hat) in *.
    destruct (decide (b = this)) as [->|Hb].
    + now rewrite Hthis.
    + rewrite (Hoth b Hb). now apply X.
  - intros a Ha.
    assert (Hat : a <> this) by (intros ->; contradiction).
    rewrite (Hoth a Hat) in *. rewrite (Hh a Hat Ha). now apply O.
Qed.

Lemma ownership_released :
  released this w w' -> exclusive w' /\ held_open w'.
Proof.
  intros [Ho Hh]. apply ownership_cleared.
  - intros a Ha. rewrite Ho. now rewrite fn_lookup_insert_ne by congruence.
  - rewrite Ho. apply fn_lookup_insert.
  - intros a Ha Hn. rewrite Hh. apply lookup_delete_ne.
    intros E. apply (X a this Ha Hn). congruence.
Qed.

Lemma ownership_acquired h t :
  (forall a, a <> this -> objs w' a = objs w a) ->
  objs w' this = h -> h <> nullptr ->
  handles w !! h = None ->
  handles w' = <[h := t]> (handles w) ->
  exclusive w' /\ held_open w'.
Proof.
  intros Hoth Hthis Hn Hfresh Hh.
  assert (D : forall a, objs w a <> nullptr -> objs w a <> h).
  { intros a Ha E. destruct (O a Ha) as [x Hx]. congruence. }
  split.
  - intros a b Hab Ha.
    destruct (decide (a = this)) as [->|Hat], (decide (b = this)) as [->|Hbt].
    + contradiction.
    + rewrite Hthis, (Hoth b Hbt). intros E.
      apply (D b); congruence.
    + rewrite Hthis, (Hoth a Hat) in *. now apply D.
    + rewrite (Hoth a Hat), (Hoth b Hbt) in *. now apply X.
  - intros a Ha. rewrite Hh.
    destruct (decide (a = this)) as [->|Hat].
    + rewrite Hthis. rewrite lookup_insert_eq. eauto.
    + rewrite (Hoth a Hat) in *. rewrite lookup_insert_ne by (apply not_eq_sym, D, Ha).
      now apply O.
Qed.

End Ownership.

Lemma ownership_swapped w x y :
  exclusive w -> held_open w ->
  let w' := snd (Thread.swap_handles x y w) in
  exclusive w' /\ held_open w'.
Proof.
  intros X O. cbn.
  set (s := fun a : addr => if decide (a = y) then x else if decide (a = x) then y else a).
  assert (S : forall a, (<[y:=objs w x]> (<[x:=objs w y]> (objs w))) a = objs w (s a)).
  { intros a. subst s. cbn. destruct (decide (a = y)) as [->|Hy].
    - now rewrite fn_lookup_insert.
    - rewrite fn_lookup_insert_ne by congruence.
      destruct (decide (a = x)) as [->|Hx].
      + now rewrite fn_lookup_insert.
      + now rewrite fn_lookup_insert_ne by congruence. }
  assert (I : forall a b, a <> b -> s a <> s b).
  { intros a b Hab. subst s. cbn.
    repeat case_decide; congruence. }
  split.
  - intros a b Hab. cbn. rewrite !S. intros Ha. apply X; auto.
  - intros a. cbn. rewrite !S. apply O.
Qed.

Section Footprints.
Variables (w : World) (this : addr).

Lemma join_footprint :
  exists o w', Thread.join this w = (o, w') /\
    (o = Returned tt /\ released this w w' \/ o <> Returned tt /\ untouched w w').
Proof.
  unfold released, untouched.
  destruct (Thread.joinable w this) eqn:J.
  - rewrite (join_joinable _ _ J).
    destruct (_join_spec this INFINITE w) as (o & w1 & -> & _ & _ & Hcase).
    destruct Hcase as [(-> & _ & Ho & Hh & _)|[(-> & _ & Hne & _)
                      |[(-> & _ & Ho & Hh & _)|(-> & _ & _ & Ho & Hh & _)]]].
    + do 2 eexists. split; [reflexivity|]. left. auto.
    + now destruct Hne.
    + do 2 eexists. split; [reflexivity|]. right. split; [discriminate | auto].
    + do 2 eexists. split; [reflexivity|]. right. split; [discriminate | auto].
  - rewrite (join_not_joinable _ _ J). do 2 eexists. split; [reflexivity|].
    right. split; [discriminate | auto].
Qed.

Lemma join_ms_footprint ms :
  exists o w', Thread.join_ms this ms w = (o, w') /\
    (released this w w' \/ untouched w w').
Proof.
  unfold released, untouched.
  destruct (Thread.joinable w this) eqn:J.
  - rewrite (join_ms_joinable _ _ ms J).
    destruct (_join_spec this ms w) as (o & w1 & -> & _ & _ & Hcase).
    do 2 eexists. split; [reflexivity|].
    destruct Hcase as [(_ & _ & Ho & Hh & _)|[(_ & _ & _ & Ho & Hh & _)
                      |[(_ & _ & Ho & Hh & _)|(_ & _ & _ & Ho & Hh & _)]]]; auto.
  - rewrite (join_ms_not_joinable _ _ ms J). do 2 eexists. split; [reflexivity|]. auto.
Qed.

Lemma detach_footprint :
  exists o w', Thread.detach this w = (o, w') /\
    (released this w w' \/ untouched w w').
Proof.
  unfold released, untouched.
  destruct (Thread.joinable w this) eqn:J.
  - rewrite (detach_joinable _ _ J).
    destruct (_detach_spec this w) as (o & w1 & -> & _ & _ & _ & Hcase).
    do 2 eexists. split; [reflexivity|].
    destruct Hcase as [(_ & _ & Ho & Hh)|(_ & _ & Ho & Hh)]; auto.
  - rewrite (detach_not_joinable _ _ J). do 2 eexists. split; [reflexivity|]. auto.
Qed.

Lemma dtor_footprint :
  exists o w', Thread.dtor this w = (o, w') /\
    (released this w w' \/ untouched w w').
Proof.
  unfold released, untouched, Thread.dtor, bind, gets, ret.
  destruct (Thread.joinable w this).
  - destruct (_force_join_spec this w) as (o & w1 & -> & _ & Hcase).
    do 2 eexists. split; [reflexivity|].
    destruct Hcase as [(_ & _ & Ho & Hh & _)|(_ & _ & Ho & Hh & _)]; auto.
  - do 2 eexists. split; [reflexivity|]. auto.
Qed.

End Footprints.

Lemma ownership_ctor w this :
  exclusive w -> held_open w ->
  let w' := snd (Thread.ctor this w) in exclusive w' /\ held_open w'.
Proof.
  intros X O. cbn. apply (ownership_cleared w _ this X O); cbn.
  - intros a Ha. now rewrite fn_lookup_insert_ne by congruence.
  - apply fn_lookup_insert.
  - reflexivity.
Qed.

Lemma ownership_payload_ctor w this opt :
  exclusive w -> held_open w -> fresh_next w ->
  let w' := snd (Thread.ctor_start_opt this opt w) in exclusive w' /\ held_open w'.
Proof.
  unfold fresh_next. intros X O F.
  destruct (payload_ctor_footprint w this opt) as (o & w' & -> & _ & Hoth & Hcase).
  cbn [snd].
  destruct (env_spawn (env w) (now w)) as [[hp t]|].
  - destruct Hcase as [(_ & Ho & Hh)|(_ & Ho & Hh)].
    + apply (ownership_acquired w w' this X O (Z.pos hp) t); auto; discriminate.
    + apply (ownership_cleared w w' this X O); auto.
      intros a _ _. rewrite Hh. now rewrite delete_insert_id.
  - destruct Hcase as (_ & Ho & Hh).
    apply (ownership_cleared w w' this X O); auto. intros. now rewrite Hh.
Qed.

Lemma ownership_step (op : Op) (w : World) :
  exclusive w -> held_open w -> fresh_next w ->
  exclusive (snd (exec op w)) /\ held_open (snd (exec op w)).
Proof.
  intros X O F. destruct op as [this|this|this opt|this other|this other|this other
                               |this|this ms|this|this]; cbn [exec].
  - now apply ownership_ctor.
  - now apply (ownership_payload_ctor w this (mk_Options None)).
  - now apply ownership_payload_ctor.
  - unfold Thread.move_ctor, bind.
    destruct (ownership_ctor w this X O) as [X1 O1].
    destruct (Thread.ctor this w) as [[[]| |] w1] eqn:E; try discriminate E.
    now apply ownership_swapped.
  - unfold Thread.move_assign, bind, gets.
    destruct (Thread.joinable w this).
    + destruct (join_footprint w this) as (o & w1 & -> & Hcase).
      destruct Hcase as [(-> & R)|(Hn & U)].
      * destruct (ownership_released w w1 this X O R) as [X1 O1].
        now apply ownership_swapped.
      * destruct (ownership_untouched w w1 X O U) as [X1 O1].
        destruct o as [[]| |]; [now destruct Hn | auto | auto].
    + unfold ret. now apply ownership_swapped.
  - now apply ownership_swapped.
  - destruct (join_footprint w this) as (o & w1 & -> & Hcase). cbn [snd].
    destruct Hcase as [(_ & R)|(_ & U)];
      [now apply (ownership_released w w1 this) | now apply (ownership_untouched w w1)].
  - unfold ignore, bind.
    destruct (join_ms_footprint w this ms) as (o & w1 & -> & Hcase).
    assert (H : exclusive w1 /\ held_open w1).
    { destruct Hcase as [R|U];
        [now apply (ownership_released w w1 this) | now apply (ownership_untouched w w1)]. }
    destruct o; exact H.
  - destruct (detach_footprint w this) as (o & w1 & -> & Hcase). cbn [snd].
    destruct Hcase as [R|U];
      [now apply (ownership_released w w1 this) | now apply (ownership_untouched w w1)].
  - destruct (dtor_footprint w this) as (o & w1 & -> & Hcase). cbn [snd].
    destruct Hcase as [R|U];
      [now apply (ownership_released w w1 this) | now apply (ownership_untouched w w1)].
Qed.

(** X17.  Exclusive ownership is an invariant of every sequence of
    operations (constructors, moves, swap, joins, detach, destructor): as
    long as the system hands out handles that are not already open, no two
    Thread objects ever hold the same native reference and every
    reference held is open. *)
Theorem ownership_is_preserved (ops : list Op) (w : World) :
  exclusive w -> held_open w -> fresh_along ops w ->
  exclusive (run_ops ops w) /\ held_open (run_ops ops w).
Proof.
  revert w. induction ops as [|op rest IH]; intros w X O F; cbn [run_ops].
  - auto.
  - destruct F as [F1 F2].
    destruct (ownership_step op w X O F1) as [X1 O1].
    now apply IH.
Qed.

Lemma ownership_is_preserved_witness :
  exclusive (run_ops sample_ops (world_init env_ok)) /\
  held_open (run_ops sample_ops (world_init env_ok)).
Proof.
  apply ownership_is_preserved.
  - intros a b _ H. now destruct H.
  - intros a H. now destruct H.
  - vm_compute. repeat split; reflexivity.
Defined.
